(** * CluX: cached AI services, cache store and usage ledger

    A shallow embedding of
    - [src/lib/ai-cache.ts]          (class [AICacheService]),
    - [src/lib/api-usage-tracker.ts] (class [APIUsageTracker]),
    - [src/lib/ai-services-cached.ts] (the cached orchestrators).

    JavaScript numbers are modelled as rationals [Q] (no rounding) and
    wall-clock dates as milliseconds in [Z].  The persistence layer (Prisma)
    is the pair of tables [aICache] and [aPIUsage] of a [World]; every
    effect of an orchestrated call is also appended to [trace], in the
    order in which the code performs it. *)

From Stdlib Require Import String Ascii List ZArith QArith Bool Lia Lqa.
Import ListNotations.

Open Scope string_scope.
Set Warnings "-register-all".

(** ** JSON values, as returned by [JSON.parse] and stored in the cache *)

Inductive json : Type :=
| JNull
| JBool (b : bool)
| JNum (q : Q)
| JStr (s : string)
| JArr (l : list json)
| JObj (fields : list (string * json)).

(** JavaScript truthiness of a value ([if (x)]). *)
Definition truthy (j : json) : bool :=
  match j with
  | JNull => false
  | JBool b => b
  | JNum q => negb (Qeq_bool q 0)
  | JStr s => negb (String.eqb s "")
  | JArr _ | JObj _ => true
  end.

(** [x || d] on an optional string. *)
Definition str_or (x : option string) (d : string) : string :=
  match x with
  | Some s => if String.eqb s "" then d else s
  | None => d
  end.

(** [x || d] on an optional number. *)
Definition num_or (x : option Q) (d : Q) : Q :=
  match x with
  | Some q => if Qeq_bool q 0 then d else q
  | None => d
  end.

(** [if (x)] on an optional number: [Some q] when [x] is a non-zero number. *)
Definition num_truthy (x : option Q) : option Q :=
  match x with
  | Some q => if Qeq_bool q 0 then None else Some q
  | None => None
  end.

(** ** Outcomes and the effect monad

    A thrown [Error] carries its message.  A throw does not roll back the
    effects performed before it, so the world is returned in both cases. *)

Inductive outcome (A : Type) : Type :=
| Ok (a : A)
| Throw (msg : string).
Arguments Ok {A} a.
Arguments Throw {A} msg.

(** The two persistence tables of the Prisma schema. *)
Record AICache := mkAICache {
  c_type : string;
  c_inputHash : string;
  c_response : json;
  c_model : string;
  c_inputSize : option Z;
  c_outputSize : option Z;
  c_expiresAt : option Z;
  c_hitCount : Z;
  c_updatedAt : Z
}.

Record APIUsage := mkAPIUsage {
  u_type : string;
  u_model : string;
  u_inputTokens : option Q;
  u_outputTokens : option Q;
  u_inputMinutes : option Q;
  u_estimatedCost : Q;
  u_cached : bool;
  u_videoId : option string;
  u_userId : option string;
  u_timestamp : Z
}.

(** Observable effects, in program order. *)
Inductive Event : Type :=
| EvLookup (hash : string)
| EvDelete (hash : string)
| EvHit (hash : string)
| EvStore (hash : string)
| EvRecord (cached : bool)
| EvProvider (capability : string).

Record World := mkWorld {
  aICache : list AICache;
  aPIUsage : list APIUsage;
  trace : list Event;
  clock : Z
}.

Definition M (A : Type) : Type := World -> outcome A * World.

Definition ret {A} (a : A) : M A := fun w => (Ok a, w).

Definition bind {A B} (m : M A) (f : A -> M B) : M B :=
  fun w => match m w with
           | (Ok a, w') => f a w'
           | (Throw e, w') => (Throw e, w')
           end.

Definition throw {A} (msg : string) : M A := fun w => (Throw msg, w).

(** [try { m } catch (error) { h(error.message) }] *)
Definition try_catch {A} (m : M A) (h : string -> M A) : M A :=
  fun w => match m w with
           | (Ok a, w') => (Ok a, w')
           | (Throw e, w') => h e w'
           end.

Notation "x <- m ;; k" := (bind m (fun x => k))
  (at level 61, m at next level, right associativity).
Notation "m ;;; k" := (bind m (fun _ => k))
  (at level 61, right associativity).

Definition now : M Z := fun w => (Ok (clock w), w).

Definition emit (e : Event) : M unit :=
  fun w => (Ok tt, mkWorld (aICache w) (aPIUsage w) ((trace w ++ [e])%list) (clock w)).

Definition modify_cache (f : list AICache -> list AICache) : M unit :=
  fun w => (Ok tt, mkWorld (f (aICache w)) (aPIUsage w) (trace w) (clock w)).

Definition read_cache : M (list AICache) := fun w => (Ok (aICache w), w).

(** ** External collaborators

    Hash functions, [JSON.stringify]/[JSON.parse], the file system, the
    provider endpoints and the prompt templates are opaque to the code under
    verification; they are the fields of a [Runtime]. *)

Record ChatResponse := mkChatResponse {
  chat_content : option string;
  prompt_tokens : option Q;
  completion_tokens : option Q
}.

Record EmbeddingResponse := mkEmbeddingResponse {
  (** [response.data.map(item => item.embedding)] *)
  emb_data : list json;
  emb_prompt_tokens : option Q
}.

Class Runtime := {
  sha256 : string -> string;
  md5 : string -> string;
  stringify : json -> string;
  json_parse : string -> outcome json;
  readFile : string -> option string;
  (** [openai.audio.transcriptions.create] on the file bytes and language. *)
  whisper : string -> string -> outcome json;
  (** [openai.chat.completions.create] on a user prompt; the first argument
      names the calling capability, whose system message and options differ. *)
  chat : string -> string -> outcome ChatResponse;
  (** [openai.embeddings.create] on a batch of texts. *)
  embeddings_create : list string -> outcome EmbeddingResponse;
  (** The template literals of the highlight and topic prompts. *)
  highlights_prompt : list (string * Q * Q) -> string;
  topics_prompt : string -> string
}.

(** A JavaScript number that may be infinite or [NaN]; [Q] has no signed
    zero, so a budget of [-0] is not represented. *)
Inductive jsnum : Type :=
| JFin (q : Q)
| JPosInf
| JNegInf
| JNaN.

(** [a + b] *)
Definition js_add (a b : jsnum) : jsnum :=
  match a, b with
  | JFin x, JFin y => JFin (x + y)
  | JNaN, _ | _, JNaN => JNaN
  | JPosInf, JNegInf | JNegInf, JPosInf => JNaN
  | JPosInf, _ | _, JPosInf => JPosInf
  | JNegInf, _ | _, JNegInf => JNegInf
  end.

(** ** [src/lib/ai-cache.ts]: the cache store *)

Module AICacheService.
Section Cache.
Context {RT : Runtime}.

(** [generateHash(content, model)] *)
Definition generateHash (content model : string) : string :=
  sha256 (model ++ ":" ++ content).

(** [prisma.aICache.findUnique({ where: { inputHash } })] *)
Fixpoint findUnique (hash : string) (l : list AICache) : option AICache :=
  match l with
  | [] => None
  | c :: l' => if String.eqb (c_inputHash c) hash then Some c else findUnique hash l'
  end.

Definition has_hash (hash : string) (c : AICache) : bool :=
  String.eqb (c_inputHash c) hash.

(** [delete(hash)] *)
Definition delete (hash : string) : M unit :=
  emit (EvDelete hash) ;;;
  modify_cache (filter (fun c => negb (has_hash hash c))).

(** [data: { hitCount: { increment: 1 } }] *)
Definition increment_hit (hash : string) (c : AICache) : AICache :=
  if has_hash hash c then
    mkAICache (c_type c) (c_inputHash c) (c_response c) (c_model c)
      (c_inputSize c) (c_outputSize c) (c_expiresAt c) (c_hitCount c + 1) (c_updatedAt c)
  else c.

(** [get(type, content, model)]; [null] is [JNull]. *)
Definition get (type content model : string) : M json :=
  let hash := generateHash content model in
  emit (EvLookup hash) ;;;
  cache <- read_cache ;;
  match findUnique hash cache with
  | None => ret JNull
  | Some cached =>
      t <- now ;;
      let hit :=
        emit (EvHit hash) ;;;
        modify_cache (map (increment_hit hash)) ;;;
        ret (c_response cached) in
      match c_expiresAt cached with
      | Some e => if (e <? t)%Z then delete hash ;;; ret JNull else hit
      | None => hit
      end
  end.

(** [expirationDays ? new Date(Date.now() + expirationDays * 24*60*60*1000) : null] *)
Definition expiry (t : Z) (expirationDays : option Z) : option Z :=
  match expirationDays with
  | Some d => if (d =? 0)%Z then None else Some (t + d * 24 * 60 * 60 * 1000)%Z
  | None => None
  end.

(** A field of Prisma's [update] data: [undefined] leaves the stored value
    unchanged. *)
Definition keep_size (value stored : option Z) : option Z :=
  match value with
  | Some _ => value
  | None => stored
  end.

(** The [update] branch of the upsert; [expiresAt] is [null], not
    [undefined], when there is no expiry, so it is always written. *)
Definition update_entry (hash : string) (response : json) (inputSize outputSize expiresAt : option Z)
    (t : Z) (c : AICache) : AICache :=
  if has_hash hash c then
    mkAICache (c_type c) (c_inputHash c) response (c_model c)
      (keep_size inputSize (c_inputSize c)) (keep_size outputSize (c_outputSize c))
      expiresAt (c_hitCount c) t
  else c.

(** [set(type, content, model, response, expirationDays?, inputSize?, outputSize?)]:
    [prisma.aICache.upsert] keyed by [inputHash]. *)
Definition set (type content model : string) (response : json)
    (expirationDays inputSize outputSize : option Z) : M unit :=
  let hash := generateHash content model in
  t <- now ;;
  let expiresAt := expiry t expirationDays in
  emit (EvStore hash) ;;;
  cache <- read_cache ;;
  if existsb (has_hash hash) cache then
    modify_cache (map (update_entry hash response inputSize outputSize expiresAt t))
  else
    modify_cache (fun l => (l ++ [mkAICache type hash response model inputSize outputSize expiresAt 0 t])%list).

End Cache.

(** Distinct keys, in order of first occurrence ([groupBy]). *)
Fixpoint distinct (seen : list string) (l : list string) : list string :=
  match l with
  | [] => []
  | k :: l' =>
      if existsb (String.eqb k) seen then distinct seen l'
      else k :: distinct (k :: seen) l'
  end.

Definition sumQ {A} (f : A -> Q) (l : list A) : Q :=
  fold_left (fun acc x => acc + f x) l 0.

Definition count_q {A} (l : list A) : Q := inject_Z (Z.of_nat (length l)).

Record CostSavings := mkCostSavings {
  sv_transcription : jsnum;
  sv_highlights : jsnum;
  sv_embeddings : jsnum;
  sv_total : jsnum
}.

(** The properties every object literal inherits from [Object.prototype]
    (in Node.js): functions, and [__proto__], the prototype itself. *)
Definition object_prototype_keys : list string :=
  ["constructor"; "__defineGetter__"; "__defineSetter__"; "hasOwnProperty";
   "__lookupGetter__"; "__lookupSetter__"; "isPrototypeOf"; "propertyIsEnumerable";
   "toString"; "valueOf"; "__proto__"; "toLocaleString"].

Definition is_prototype_key (k : string) : bool := existsb (String.eqb k) object_prototype_keys.

(** [costPerHit[type] || 0]: a price ([0] for a type without one), or
    [None] for a key of [Object.prototype], whose inherited member (a
    function or an object) is truthy and is not a number. *)
Definition costPerHit (type : string) : option Q :=
  if String.eqb type "transcription" then Some (3 # 100)
  else if String.eqb type "highlights" then Some (2 # 1000)
  else if String.eqb type "embeddings" then Some (1 # 1000)
  else if String.eqb type "summary" then Some (1 # 1000)
  else if is_prototype_key type then None
  else Some 0.

(** [(costPerHit[type] || 0) * hits]: [NaN] when the member is a function
    or an object. *)
Definition cost_of (type : string) (hits : Q) : jsnum :=
  match costPerHit type with
  | Some p => JFin (p * hits)
  | None => JNaN
  end.

(** One iteration of the loop of [estimateCostSavings].  [type in savings]
    also holds for a key of [Object.prototype]; the assignment then writes
    a property other than the four of [CostSavings] (or, for [__proto__],
    is ignored), so those four are left as they were. *)
Definition savings_step (savings : CostSavings) (type : string) (hits : Q) : CostSavings :=
  let cost := cost_of type hits in
  let s :=
    if String.eqb type "transcription" then
      mkCostSavings cost (sv_highlights savings) (sv_embeddings savings) (sv_total savings)
    else if String.eqb type "highlights" then
      mkCostSavings (sv_transcription savings) cost (sv_embeddings savings) (sv_total savings)
    else if String.eqb type "embeddings" then
      mkCostSavings (sv_transcription savings) (sv_highlights savings) cost (sv_total savings)
    else if String.eqb type "total" then
      mkCostSavings (sv_transcription savings) (sv_highlights savings) (sv_embeddings savings) cost
    else savings in
  mkCostSavings (sv_transcription s) (sv_highlights s) (sv_embeddings s)
    (js_add (sv_total s) cost).

Definition hits_of_type (cache : list AICache) (type : string) : Q :=
  sumQ (fun c => inject_Z (c_hitCount c)) (filter (fun c => String.eqb (c_type c) type) cache).

(** [estimateCostSavings()] *)
Definition estimateCostSavings (w : World) : CostSavings :=
  fold_left (fun s type => savings_step s type (hits_of_type (aICache w) type))
    (distinct [] (map c_type (aICache w))) (mkCostSavings (JFin 0) (JFin 0) (JFin 0) (JFin 0)).

Record CacheStats := mkCacheStats {
  cs_byType : list (string * nat);
  cs_total : nat;
  cs_hitRate : Q;
  cs_estimatedSavings : jsnum
}.

(** [getStats()] *)
Definition getStats (w : World) : CacheStats :=
  let byType := map (fun k => (k, length (filter (fun c => String.eqb (c_type c) k) (aICache w))))
                    (distinct [] (map c_type (aICache w))) in
  let total := length (aICache w) in
  let hits := sumQ (fun c => inject_Z (c_hitCount c)) (aICache w) in
  let totalRequests := count_q (aPIUsage w) + hits in
  let hitRate := if Qle_bool totalRequests 0 then 0 else (hits / totalRequests) * 100 in
  mkCacheStats byType total hitRate (sv_total (estimateCostSavings w)).

(** [expiresAt: { lt: new Date() }]: an entry without expiry does not match. *)
Definition expired_at (t : Z) (c : AICache) : bool :=
  match c_expiresAt c with
  | Some e => (e <? t)%Z
  | None => false
  end.

(** [clearExpired()]: [deleteMany] of the expired entries; returns [result.count]. *)
Definition clearExpired : M nat :=
  t <- now ;;
  cache <- read_cache ;;
  modify_cache (filter (fun c => negb (expired_at t c))) ;;;
  ret (length (filter (expired_at t) cache)).

(** [clearByType(type)]: [deleteMany({ where: { type } })]. *)
Definition clearByType (type : string) : M nat :=
  cache <- read_cache ;;
  modify_cache (filter (fun c => negb (String.eqb (c_type c) type))) ;;;
  ret (length (filter (fun c => String.eqb (c_type c) type) cache)).

(** [clearAll()]: [deleteMany({})]. *)
Definition clearAll : M nat :=
  cache <- read_cache ;;
  modify_cache (fun _ => []) ;;;
  ret (length cache).

(** [getCountByType(type)]: [count({ where: { type } })]. *)
Definition getCountByType (type : string) (w : World) : nat :=
  length (filter (fun c => String.eqb (c_type c) type) (aICache w)).

(** [_sum] of a nullable column followed by [|| 0]: the sum of the non-null
    values ([null], hence [0], when there is none). *)
Definition sum_opt (f : AICache -> option Z) (l : list AICache) : Z :=
  fold_left (fun acc c => match f c with Some z => (acc + z)%Z | None => acc end) l 0%Z.

Record CacheSize := mkCacheSize {
  cz_entries : nat;
  cz_estimatedSizeMB : Q
}.

(** [getCacheSize()] *)
Definition getCacheSize (w : World) : CacheSize :=
  let entries := length (aICache w) in
  let totalBytes := (sum_opt c_inputSize (aICache w) + sum_opt c_outputSize (aICache w))%Z in
  mkCacheSize entries (inject_Z totalBytes / inject_Z (1024 * 1024)).


End AICacheService.

(** ** [src/lib/api-usage-tracker.ts]: the usage ledger and its cost model *)

Module APIUsageTracker.

Record Rates := mkRates {
  perMinute : option Q;
  inputPer1K : option Q;
  outputPer1K : option Q
}.

(** [COST_RATES[model]].  A key of [Object.prototype] (["toString"], ...)
    yields a truthy value without any of the three rate fields, on which
    [calculateCost] returns [0] as it does for [None]. *)
Definition COST_RATES (model : string) : option Rates :=
  if String.eqb model "whisper-1" then Some (mkRates (Some (6 # 1000)) None None)
  else if String.eqb model "gpt-4o-mini" then
    Some (mkRates None (Some (15 # 100000)) (Some (6 # 10000)))
  else if String.eqb model "text-embedding-3-small" then
    Some (mkRates None (Some (2 # 100000)) None)
  else if String.eqb model "text-embedding-3-large" then
    Some (mkRates None (Some (13 # 100000)) None)
  else None.

(** [calculateCost(type, model, inputTokens?, outputTokens?, inputMinutes?)] *)
Definition calculateCost (type model : string)
    (inputTokens outputTokens inputMinutes : option Q) : Q :=
  match COST_RATES model with
  | None => 0
  | Some rates =>
      match (if String.eqb type "transcription" then num_truthy inputMinutes else None),
            perMinute rates with
      | Some minutes, Some rate => minutes * rate
      | _, _ =>
          match String.eqb type "completion" || String.eqb type "embedding",
                inputPer1K rates with
          | true, Some rateIn =>
              let cost := 0 in
              let cost :=
                match num_truthy inputTokens with
                | Some it => cost + (it / 1000) * rateIn
                | None => cost
                end in
              let cost :=
                match num_truthy outputTokens, outputPer1K rates with
                | Some ot, Some rateOut => cost + (ot / 1000) * rateOut
                | _, _ => cost
                end in
              cost
          | _, _ => 0
          end
      end
  end.

Record TrackParams := mkTrackParams {
  tp_type : string;
  tp_model : string;
  tp_inputTokens : option Q;
  tp_outputTokens : option Q;
  tp_inputMinutes : option Q;
  tp_cached : option bool;
  tp_videoId : option string;
  tp_userId : option string
}.

Definition append_usage (r : APIUsage) : M unit :=
  fun w => (Ok tt, mkWorld (aICache w) ((aPIUsage w ++ [r])%list) (trace w) (clock w)).

(** A value Prisma accepts for an [Int?] column ([inputTokens],
    [outputTokens]): [undefined], or an integer of 32 bits. *)
Definition int_column (x : option Q) : bool :=
  match x with
  | None => true
  | Some q =>
      (Z.rem (Qnum q) (Zpos (Qden q)) =? 0)%Z &&
      (-2147483648 <=? Qnum q / Zpos (Qden q))%Z && (Qnum q / Zpos (Qden q) <=? 2147483647)%Z
  end.

(** [trackUsage(params)]: one [prisma.aPIUsage.create] ([EvRecord]).  The
    create is rejected when a token count is not an [Int]; the [catch]
    swallows the error and no row is written. *)
Definition trackUsage (p : TrackParams) : M unit :=
  let estimatedCost :=
    calculateCost (tp_type p) (tp_model p) (tp_inputTokens p) (tp_outputTokens p)
      (tp_inputMinutes p) in
  let cached := match tp_cached p with Some b => b | None => false end in
  t <- now ;;
  emit (EvRecord cached) ;;;
  if int_column (tp_inputTokens p) && int_column (tp_outputTokens p) then
    append_usage (mkAPIUsage (tp_type p) (tp_model p) (tp_inputTokens p) (tp_outputTokens p)
                    (tp_inputMinutes p) estimatedCost cached (tp_videoId p) (tp_userId p) t)
  else ret tt.

(** The [whereClause] of [getUsageStats(startDate?, endDate?, userId?)]. *)
Definition matches (startDate endDate : option Z) (userId : option string) (r : APIUsage) : bool :=
  match startDate with Some s => (s <=? u_timestamp r)%Z | None => true end &&
  match endDate with Some e => (u_timestamp r <=? e)%Z | None => true end &&
  match userId with
  | Some u => if String.eqb u "" then true
              else match u_userId r with Some u' => String.eqb u' u | None => false end
  | None => true
  end.

Record UsageStats := mkUsageStats {
  us_totalCost : Q;
  us_totalRequests : nat;
  us_byType : list (string * nat * Q);
  us_byModel : list (string * nat * Q);
  us_cacheHitRate : Q;
  us_periodSavings : Q
}.

Definition group_by (key : APIUsage -> string) (l : list APIUsage) : list (string * nat * Q) :=
  map (fun k => let g := filter (fun r => String.eqb (key r) k) l in
                (k, length g, AICacheService.sumQ u_estimatedCost g))
      (AICacheService.distinct [] (map key l)).

(** [estimateCachedOriginalCost(cachedRequests)] *)
Definition estimateCachedOriginalCost (cachedRequests : Q) : Q := cachedRequests * (1 # 100).

(** [getUsageStats(startDate?, endDate?, userId?)] *)
Definition getUsageStats (startDate endDate : option Z) (userId : option string) (w : World)
    : UsageStats :=
  let rows := filter (matches startDate endDate userId) (aPIUsage w) in
  let totalRequests := length rows in
  let cachedRequests := length (filter u_cached rows) in
  let cacheHitRate :=
    if (0 <? totalRequests)%nat
    then (inject_Z (Z.of_nat cachedRequests) / inject_Z (Z.of_nat totalRequests)) * 100
    else 0 in
  mkUsageStats (AICacheService.sumQ u_estimatedCost rows) totalRequests
    (group_by u_type rows) (group_by u_model rows) cacheHitRate
    (estimateCachedOriginalCost (inject_Z (Z.of_nat cachedRequests))).

(** [if (userId) whereClause.userId = userId] *)
Definition user_matches (userId : option string) (r : APIUsage) : bool :=
  match userId with
  | Some u => if String.eqb u "" then true
              else match u_userId r with Some u' => String.eqb u' u | None => false end
  | None => true
  end.

(** [videoId: { not: null }] *)
Definition has_video (r : APIUsage) : bool :=
  match u_videoId r with Some _ => true | None => false end.

(** The [videoId] of a row that has one. *)
Definition video_key (r : APIUsage) : string :=
  match u_videoId r with Some v => v | None => "" end.

(** [new Map(entries).get(k)]: the value of the last entry with key [k]. *)
Fixpoint map_get (k : string) (m : list (string * string)) : option string :=
  match m with
  | [] => None
  | (k', v) :: m' =>
      match map_get k m' with
      | Some v' => Some v'
      | None => if String.eqb k' k then Some v else None
      end
  end.

Record VideoCost := mkVideoCost {
  vc_videoId : string;
  vc_videoTitle : string;
  vc_totalCost : Q;
  vc_requests : nat
}.

(** One insertion step of the stable sort by the comparator
    [(a, b) => b.totalCost - a.totalCost]: [x] goes before the first element
    of smaller cost. *)
Fixpoint insert_by_cost (x : VideoCost) (l : list VideoCost) : list VideoCost :=
  match l with
  | [] => [x]
  | y :: l' =>
      if negb (Qle_bool (vc_totalCost x) (vc_totalCost y)) then x :: l
      else y :: insert_by_cost x l'
  end.

(** [Array.prototype.sort] (stable) with that comparator. *)
Definition sort_by_cost (l : list VideoCost) : list VideoCost :=
  fold_left (fun acc x => insert_by_cost x acc) l [].

(** [getCostByVideo(userId?)]; [videos] is the [Video] table, as pairs
    [(id, title)]. *)
Definition getCostByVideo (userId : option string) (videos : list (string * string)) (w : World)
    : list VideoCost :=
  let rows := filter (fun r => has_video r && user_matches userId r) (aPIUsage w) in
  let videoUsage := group_by video_key rows in
  let videoIds := map (fun '(k, _, _) => k) videoUsage in
  let found := filter (fun '(id, _) => existsb (String.eqb id) videoIds) videos in
  let title k := match map_get k found with
                 | Some t => if String.eqb t "" then "Unknown Video" else t
                 | None => "Unknown Video"
                 end in
  sort_by_cost
    (map (fun '(k, n, cost) => mkVideoCost k (title k) cost n)
         (filter (fun '(k, _, _) => negb (String.eqb k "")) videoUsage)).

(** The UTC day of a timestamp: [timestamp.toISOString().split('T')[0]]
    names it as ["YYYY-MM-DD"], and for the years 0000 to 9999 these names
    compare with [localeCompare] as the day numbers do. *)
Definition day_of (t : Z) : Z := (t / 86400000)%Z.

(** The groups of [groupBy({ by: ['timestamp', 'cached'] })], keys in order
    of first occurrence. *)
Fixpoint distinct_tc (seen : list (Z * bool)) (l : list (Z * bool)) : list (Z * bool) :=
  match l with
  | [] => []
  | k :: l' =>
      if existsb (fun k' => (fst k' =? fst k)%Z && Bool.eqb (snd k') (snd k)) seen
      then distinct_tc seen l'
      else k :: distinct_tc (k :: seen) l'
  end.

Definition tc_key (r : APIUsage) : Z * bool := (u_timestamp r, u_cached r).

Definition group_tc (rows : list APIUsage) : list (Z * bool * nat * Q) :=
  map (fun k => let g := filter (fun r => (u_timestamp r =? fst k)%Z && Bool.eqb (u_cached r) (snd k))
                              rows in
                (fst k, snd k, length g, AICacheService.sumQ u_estimatedCost g))
      (distinct_tc [] (map tc_key rows)).

Record DayUsage := mkDayUsage {
  du_date : Z;
  du_cost : Q;
  du_requests : nat;
  du_cached : nat
}.

(** [dateMap.get(date) || { cost: 0, requests: 0, cached: 0 }] *)
Fixpoint day_get (d : Z) (m : list DayUsage) : DayUsage :=
  match m with
  | [] => mkDayUsage d 0 0 0
  | x :: m' => if (du_date x =? d)%Z then x else day_get d m'
  end.

(** [dateMap.set(date, v)]: in place when the key is present, else appended. *)
Fixpoint day_set (v : DayUsage) (m : list DayUsage) : list DayUsage :=
  match m with
  | [] => [v]
  | x :: m' => if (du_date x =? du_date v)%Z then v :: m' else x :: day_set v m'
  end.

(** One iteration of the [for] loop over [dailyUsage]. *)
Definition day_step (m : list DayUsage) (g : Z * bool * nat * Q) : list DayUsage :=
  let '(ts, cached, count, cost) := g in
  let date := day_of ts in
  let existing := day_get date m in
  day_set (mkDayUsage date (du_cost existing + cost) (du_requests existing + count)
             (if cached then du_cached existing + count else du_cached existing)) m.

(** [.sort((a, b) => a.date.localeCompare(b.date))] (stable insertion). *)
Fixpoint insert_by_date (x : DayUsage) (l : list DayUsage) : list DayUsage :=
  match l with
  | [] => [x]
  | y :: l' => if (du_date x <? du_date y)%Z then x :: l else y :: insert_by_date x l'
  end.

(** [getDailyUsage(startDate, endDate, userId?)] *)
Definition getDailyUsage (startDate endDate : Z) (userId : option string) (w : World)
    : list DayUsage :=
  let rows := filter (fun r => (startDate <=? u_timestamp r)%Z && (u_timestamp r <=? endDate)%Z
                               && user_matches userId r) (aPIUsage w) in
  let dateMap := fold_left day_step (group_tc rows) [] in
  fold_left (fun acc x => insert_by_date x acc) dateMap [].

(** [a / b] *)
Definition js_div (a b : Q) : jsnum :=
  if Qeq_bool b 0 then
    if Qeq_bool a 0 then JNaN else if Qle_bool a 0 then JNegInf else JPosInf
  else JFin (a / b).

(** [x * 100] *)
Definition js_mul100 (x : jsnum) : jsnum :=
  match x with
  | JFin q => JFin (q * 100)
  | y => y
  end.

(** [x >= c] *)
Definition js_ge (x : jsnum) (c : Q) : bool :=
  match x with
  | JFin q => Qle_bool c q
  | JPosInf => true
  | JNegInf | JNaN => false
  end.

Inductive AlertLevel : Type := Low | Medium | High | Exceeded.

Record BudgetAlert := mkBudgetAlert {
  ba_currentSpend : Q;
  ba_budget : Q;
  ba_percentUsed : jsnum;
  ba_alertLevel : AlertLevel
}.

(** [checkBudgetAlert(monthlyBudget, userId?)]; [startOfMonth] is the first
    instant of the current month in local time, which the code computes
    from the clock with [setDate(1)] and [setHours(0, 0, 0, 0)]. *)
Definition checkBudgetAlert (monthlyBudget : Q) (userId : option string) (startOfMonth : Z)
    (w : World) : BudgetAlert :=
  let monthlyStats := getUsageStats (Some startOfMonth) (Some (clock w)) userId w in
  let currentSpend := us_totalCost monthlyStats in
  let percentUsed := js_mul100 (js_div currentSpend monthlyBudget) in
  let alertLevel :=
    if js_ge percentUsed 100 then Exceeded
    else if js_ge percentUsed 80 then High
    else if js_ge percentUsed 60 then Medium
    else Low in
  mkBudgetAlert currentSpend monthlyBudget percentUsed alertLevel.


End APIUsageTracker.

(** ** [src/lib/ai-services-cached.ts]: the cached orchestrators *)

Module AIServicesCached.
Import AICacheService APIUsageTracker.

(** [AI_CONFIG] of [src/lib/openai.ts]. *)
Definition transcription_model : string := "whisper-1".
Definition transcription_language : string := "en".
Definition highlights_model : string := "gpt-4o-mini".
Definition completion_model : string := "gpt-4o-mini".
Definition embeddings_model : string := "text-embedding-3-small".

(** The constant [batchSize] of [generateEmbeddingsCached]. *)
Definition batchSize : nat := 100.

Definition lift {A} (o : outcome A) : M A := fun w => (o, w).

Fixpoint lookup_last (f : string) (fs : list (string * json)) : option json :=
  match fs with
  | [] => None
  | (k, v) :: fs' =>
      match lookup_last f fs' with
      | Some v' => Some v'
      | None => if String.eqb k f then Some v else None
      end
  end.

(** Property read [obj.f]: a [TypeError] on [null]; [undefined] ([None])
    when the value has no such own property. *)
Definition js_field (j : json) (f : string) : outcome (option json) :=
  match j with
  | JNull => Throw ("Cannot read properties of null (reading '" ++ f ++ "')")
  | JObj fs => Ok (lookup_last f fs)
  | _ => Ok None
  end.

Definition as_number (o : option json) : option Q :=
  match o with Some (JNum q) => Some q | _ => None end.

(** [arr.push(...x)]: the elements produced by spreading [x]. *)
Definition spread (j : json) : outcome (list json) :=
  match j with
  | JArr l => Ok l
  | JStr s => Ok (map (fun c => JStr (String c EmptyString)) (list_ascii_of_string s))
  | _ => Throw "object is not iterable"
  end.

(** [Math.ceil(transcript.length / 3.5)] *)
Definition estimate_tokens (transcript : string) : Q :=
  inject_Z ((2 * Z.of_nat (String.length transcript) + 6) / 7).

Definition lenZ (s : string) : Z := Z.of_nat (String.length s).

Definition dq : string := String (ascii_of_nat 34) EmptyString.

Definition nl : string := String (ascii_of_nat 10) EmptyString.

(** The default ['{"topics": []}'] of [extractKeyTopicsCached]. *)
Definition topics_default : string := "{" ++ dq ++ "topics" ++ dq ++ ": []}".

Section Orchestrators.
Context {RT : Runtime}.

(** [await fs.access(path)] followed by [await fs.readFile(path)]. *)
Definition read_file (path : string) : M string :=
  lift (match readFile path with
        | Some bytes => Ok bytes
        | None => Throw ("ENOENT: no such file or directory, access '" ++ path ++ "'")
        end).

Definition track (type model : string) (inputTokens outputTokens inputMinutes : option Q)
    (cached : bool) (videoId userId : option string) : M unit :=
  trackUsage (mkTrackParams type model inputTokens outputTokens inputMinutes (Some cached)
                videoId userId).

(** [const fileHash = md5(fileBuffer); const cacheKey = `${fileHash}:${language || 'en'}`] *)
Definition transcription_cacheKey (fileBuffer : string) (language : option string) : string :=
  let fileHash := md5 fileBuffer in
  fileHash ++ ":" ++ str_or language "en".

(** The [try] block of [transcribeAudioCached]. *)
Definition transcribeAudio_body (audioPath : string) (language videoId userId : option string)
    : M json :=
  fileBuffer <- read_file audioPath ;;
  let cacheKey := transcription_cacheKey fileBuffer language in
  let model := transcription_model in
  cached <- get "transcription" cacheKey model ;;
  if truthy cached then
    duration <- lift (js_field cached "duration") ;;
    track "transcription" model None None (as_number duration) true videoId userId ;;;
    ret cached
  else
    audioFile <- read_file audioPath ;;
    emit (EvProvider "transcription") ;;;
    result <- lift (whisper audioFile (str_or language transcription_language)) ;;
    duration <- lift (js_field result "duration") ;;
    track "transcription" model None None (as_number duration) false videoId userId ;;;
    set "transcription" cacheKey model result (Some 60%Z)
      (Some (lenZ fileBuffer)) (Some (lenZ (stringify result))) ;;;
    ret result.

(** [transcribeAudioCached(audioPath, language?, videoId?, userId?)] *)
Definition transcribeAudioCached (audioPath : string) (language videoId userId : option string)
    : M json :=
  try_catch (transcribeAudio_body audioPath language videoId userId)
    (fun msg => throw ("Transcription failed: " ++ msg)).

(** [JSON.stringify(segments)] *)
Definition segments_json (segments : list (string * Q * Q)) : json :=
  JArr (map (fun '(text, startTime, endTime) =>
               JObj [("text", JStr text); ("startTime", JNum startTime); ("endTime", JNum endTime)])
            segments).

(** [JSON.parse(content || '{}')] and the validation of [result.highlights]. *)
Definition parse_highlights (response : ChatResponse) : outcome json :=
  match json_parse (str_or (chat_content response) "{}") with
  | Throw e => Throw e
  | Ok result =>
      match js_field result "highlights" with
      | Throw e => Throw e
      | Ok (Some (JArr _)) => Ok result
      | Ok _ => Throw "Invalid highlights response format"
      end
  end.

(** The [try] block of [generateHighlightsCached]. *)
Definition generateHighlights_body (transcript : string) (segments : list (string * Q * Q))
    (videoId userId : option string) : M json :=
  let model := highlights_model in
  let cacheKey := md5 (transcript ++ ":" ++ stringify (segments_json segments)) in
  cached <- get "highlights" cacheKey model ;;
  if truthy cached then
    track "completion" model (Some (estimate_tokens transcript)) (Some 500) None true
      videoId userId ;;;
    ret cached
  else
    emit (EvProvider "highlights") ;;;
    response <- lift (chat "highlights" (highlights_prompt segments)) ;;
    result <- lift (parse_highlights response) ;;
    track "completion" model (Some (num_or (prompt_tokens response) 0))
      (Some (num_or (completion_tokens response) 0)) None false videoId userId ;;;
    set "highlights" cacheKey model result (Some 90%Z)
      (Some (lenZ transcript)) (Some (lenZ (stringify result))) ;;;
    ret result.

(** [generateHighlightsCached(transcript, segments, videoId?, userId?)] *)
Definition generateHighlightsCached (transcript : string) (segments : list (string * Q * Q))
    (videoId userId : option string) : M json :=
  try_catch (generateHighlights_body transcript segments videoId userId)
    (fun msg => throw ("Highlight generation failed: " ++ msg)).

(** [texts.slice(i, j)] *)
Definition slice {A} (l : list A) (i j : nat) : list A := firstn (j - i) (skipn i l).

(** The values of [i] in [for (let i = 0; i < texts.length; i += batchSize)];
    [fuel] bounds the number of iterations. *)
Fixpoint batch_starts (fuel i n : nat) : list nat :=
  match fuel with
  | O => []
  | S fuel' => if (i <? n)%nat then i :: batch_starts fuel' (i + batchSize) n else []
  end.

(** The batches [texts.slice(i, i + batchSize)], in loop order. *)
Definition batches (texts : list string) : list (list string) :=
  map (fun i => slice texts i (i + batchSize)) (batch_starts (length texts) 0 (length texts)).

(** [md5(`${JSON.stringify(batch)}:${model}`)] *)
Definition embeddings_batchKey (batch : list string) : string :=
  md5 (stringify (JArr (map JStr batch)) ++ ":" ++ embeddings_model).

(** The body of the loop of [generateEmbeddingsCached] on one batch; it
    returns the embeddings the body pushes. *)
Definition embeddings_batch (batch : list string) (videoId userId : option string)
    : M (list json) :=
  let model := embeddings_model in
  let batchKey := embeddings_batchKey batch in
  cached <- get "embeddings" batchKey model ;;
  if truthy cached then
    items <- lift (spread cached) ;;
    track "embedding" model (Some (inject_Z (lenZ (String.concat " " batch)) / 4)) None None
      true videoId userId ;;;
    ret items
  else
    emit (EvProvider "embeddings") ;;;
    response <- lift (embeddings_create batch) ;;
    let batchEmbeddings := emb_data response in
    track "embedding" model (Some (num_or (emb_prompt_tokens response) 0)) None None
      false videoId userId ;;;
    set "embeddings" batchKey model (JArr batchEmbeddings) (Some 180%Z)
      (Some (lenZ (String.concat " " batch))) (Some (lenZ (stringify (JArr batchEmbeddings)))) ;;;
    ret batchEmbeddings.

(** The [for] loop, one batch after the other. *)
Fixpoint embeddings_loop (bs : list (list string)) (videoId userId : option string)
    (embeddings : list json) : M (list json) :=
  match bs with
  | [] => ret embeddings
  | batch :: bs' =>
      pushed <- embeddings_batch batch videoId userId ;;
      embeddings_loop bs' videoId userId (embeddings ++ pushed)
  end.

(** [generateEmbeddingsCached(texts, videoId?, userId?)] *)
Definition generateEmbeddingsCached (texts : list string) (videoId userId : option string)
    : M (list json) :=
  try_catch (embeddings_loop (batches texts) videoId userId [])
    (fun msg => throw ("Embedding generation failed: " ++ msg)).

(** The [try] block of [extractKeyTopicsCached]. *)
Definition extractKeyTopics_body (transcript : string) (videoId userId : option string)
    : M json :=
  let model := completion_model in
  let cacheKey := md5 ("topics:" ++ transcript) in
  cached <- get "topics" cacheKey model ;;
  if truthy cached then
    track "completion" model (Some (estimate_tokens transcript)) (Some 50) None true
      videoId userId ;;;
    ret cached
  else
    emit (EvProvider "topics") ;;;
    response <- lift (chat "topics" (topics_prompt transcript)) ;;
    result <- lift (json_parse (str_or (chat_content response) topics_default)) ;;
    field <- lift (js_field result "topics") ;;
    let topics := match field with
                  | Some t => if truthy t then t else JArr []
                  | None => JArr []
                  end in
    track "completion" model (Some (num_or (prompt_tokens response) 0))
      (Some (num_or (completion_tokens response) 0)) None false videoId userId ;;;
    set "topics" cacheKey model topics (Some 60%Z)
      (Some (lenZ transcript)) (Some (lenZ (stringify topics))) ;;;
    ret topics.

(** [extractKeyTopicsCached(transcript, videoId?, userId?)]: the [catch]
    returns [[]]. *)
Definition extractKeyTopicsCached (transcript : string) (videoId userId : option string)
    : M json :=
  try_catch (extractKeyTopics_body transcript videoId userId) (fun _ => ret (JArr [])).

(** The template literal of the summary prompt. *)
Definition summary_prompt (transcript : string) : string :=
  nl ++ "Please provide a concise summary of this video transcript. Focus on:" ++ nl
  ++ "- Main topics discussed" ++ nl
  ++ "- Key points and insights" ++ nl
  ++ "- Important outcomes or decisions" ++ nl
  ++ "- Overall theme and purpose" ++ nl
  ++ nl
  ++ "Keep the summary between 150-300 words." ++ nl
  ++ nl
  ++ "Transcript:" ++ nl
  ++ transcript ++ nl.

(** The [try] block of [generateSummaryCached]. *)
Definition generateSummary_body (transcript : string) (videoId userId : option string) : M json :=
  let model := completion_model in
  let cacheKey := md5 transcript in
  cached <- get "summary" cacheKey model ;;
  if truthy cached then
    track "completion" model (Some (estimate_tokens transcript)) (Some 100) None true
      videoId userId ;;;
    ret cached
  else
    emit (EvProvider "summary") ;;;
    response <- lift (chat "summary" (summary_prompt transcript)) ;;
    let summary := str_or (chat_content response) "" in
    track "completion" model (Some (num_or (prompt_tokens response) 0))
      (Some (num_or (completion_tokens response) 0)) None false videoId userId ;;;
    set "summary" cacheKey model (JStr summary) (Some 60%Z)
      (Some (lenZ transcript)) (Some (lenZ summary)) ;;;
    ret (JStr summary).

(** [generateSummaryCached(transcript, videoId?, userId?)] *)
Definition generateSummaryCached (transcript : string) (videoId userId : option string) : M json :=
  try_catch (generateSummary_body transcript videoId userId)
    (fun msg => throw ("Summary generation failed: " ++ msg)).


End Orchestrators.
(** [/[A-Z]/] and [/[a-z]/] *)
Definition is_upper (c : ascii) : bool := (65 <=? nat_of_ascii c)%nat && (nat_of_ascii c <=? 90)%nat.
Definition is_lower (c : ascii) : bool := (97 <=? nat_of_ascii c)%nat && (nat_of_ascii c <=? 122)%nat.

(** The upper-case letters of Latin-1 other than [A-Z]: U+00C0 to U+00DE
    except U+00D7; each lower-cases to the code point 32 above it. *)
Definition is_latin1_upper (c : ascii) : bool :=
  (192 <=? nat_of_ascii c)%nat && (nat_of_ascii c <=? 222)%nat && negb (nat_of_ascii c =? 215)%nat.

(** [s.toLowerCase()].  A character of a [string] is a code unit below 256
    (Latin-1), on which [toLowerCase] changes exactly [A-Z] and the
    letters of [is_latin1_upper]. *)
Definition to_lower (s : string) : string :=
  string_of_list_ascii
    (map (fun c => if is_upper c || is_latin1_upper c then ascii_of_nat (nat_of_ascii c + 32) else c)
         (list_ascii_of_string s)).

(** [s.includes(sub)] *)
Fixpoint includes (s sub : string) : bool :=
  String.prefix sub s || match s with
                         | EmptyString => false
                         | String _ s' => includes s' sub
                         end.

(** What is left after a maximal run of [a-z]. *)
Fixpoint drop_lowers (s : string) : string :=
  match s with
  | String c s' => if is_lower c then drop_lowers s' else s
  | EmptyString => EmptyString
  end.

(** [s.match(/^[A-Z][a-z]+:/)] is not [null]. *)
Definition name_prefix (s : string) : bool :=
  match s with
  | String c1 s1 =>
      is_upper c1 &&
      match s1 with String c2 _ => is_lower c2 | EmptyString => false end &&
      String.prefix ":" (drop_lowers s1)
  | EmptyString => false
  end.

(** The decimal digits of a natural number, as in a template literal. *)
Fixpoint digits_aux (fuel n : nat) (acc : string) : string :=
  match fuel with
  | O => acc
  | S fuel' =>
      let acc' := String (ascii_of_nat (48 + n mod 10)) acc in
      if (n <? 10)%nat then acc' else digits_aux fuel' (n / 10) acc'
  end.

Definition string_of_nat (n : nat) : string := digits_aux (S n) n EmptyString.

(** The [isNewSpeaker] test of a segment against the previous one. *)
Definition isNewSpeaker (prev : option (string * Q * Q)) (segment : string * Q * Q) : bool :=
  let '(text, startTime, _) := segment in
  match prev with
  | None => true
  | Some (_, _, prevEnd) =>
      negb (Qle_bool (startTime - prevEnd) (2 # 1)) ||
      includes (to_lower text) "speaker" ||
      name_prefix text
  end.

(** [speaker_${Math.floor(index / 10) + 1}] *)
Definition speaker_label (index : nat) : string :=
  "speaker_" ++ string_of_nat (index / 10 + 1).

Fixpoint detect_from (prev : option (string * Q * Q)) (index : nat) (segments : list (string * Q * Q))
    : list ((string * Q * Q) * option string) :=
  match segments with
  | [] => []
  | segment :: rest =>
      (segment, if isNewSpeaker prev segment then Some (speaker_label index) else None)
        :: detect_from (Some segment) (S index) rest
  end.

(** [detectSpeakers(segments)]: each segment with its [speakerId]. *)
Definition detectSpeakers (segments : list (string * Q * Q)) : list ((string * Q * Q) * option string) :=
  detect_from None 0 segments.


End AIServicesCached.

(** ** The cost model as the specification words it

    "cost = quantity/unit x rate, summed across input and output components
    when both apply": a per-minute rate applies to transcriptions, per-1000-
    token rates to completions and embeddings; a missing quantity counts 0. *)

Module CostSpec.
Import APIUsageTracker.

Definition qty (o : option Q) : Q := match o with Some q => q | None => 0 end.

Definition nonneg (o : option Q) : Prop := match o with Some q => 0 <= q | None => True end.

Definition spec_cost (kind model : string) (inputTokens outputTokens inputMinutes : option Q) : Q :=
  match COST_RATES model with
  | None => 0
  | Some rates =>
      match perMinute rates with
      | Some rate => if String.eqb kind "transcription" then qty inputMinutes * rate else 0
      | None =>
          if String.eqb kind "completion" || String.eqb kind "embedding" then
            match inputPer1K rates with
            | Some rateIn =>
                qty inputTokens / 1000 * rateIn
                + qty outputTokens / 1000 * match outputPer1K rates with
                                             | Some rateOut => rateOut
                                             | None => 0
                                             end
            | None => 0
            end
          else 0
      end
  end.

End CostSpec.

(** ** Concrete tables used by the examples below *)

Module Demo.

Definition usage_row (cached : bool) : APIUsage :=
  mkAPIUsage "completion" "gpt-4o-mini" None None None 0 cached None None 0.

(** A ledger holding a single cache-hit record. *)
Definition ledger_one_hit : World := mkWorld [] [usage_row true] [] 0.

Definition entry (hash : string) (hits : Z) : AICache :=
  mkAICache "highlights" hash JNull "gpt-4o-mini" None None None hits 0.

(** One cache entry hit once; one real provider call and the ledger record
    of that hit. *)
Definition stats_world : World :=
  mkWorld [entry "k" 1] [usage_row false; usage_row true] [] 0.

(** A concrete runtime: identity hashes, a provider that answers every
    transcription and embedding request and whose chat endpoint is down. *)
Definition demo_rt : Runtime := {|
  sha256 := fun s => s;
  md5 := fun s => s;
  stringify := fun _ => "";
  json_parse := fun _ => Throw "Unexpected end of JSON input";
  readFile := fun _ => Some "RIFF";
  whisper := fun _ _ => Ok (JObj [("duration", JNum 60)]);
  chat := fun _ _ => Throw "503 Service Unavailable";
  embeddings_create := fun batch =>
    Ok (mkEmbeddingResponse (map (fun t => JArr [JStr t]) batch) (Some 1));
  highlights_prompt := fun _ => "highlights";
  topics_prompt := fun _ => "topics"
|}.

(** A cache entry for content ["c"] under model ["m"] ([demo_rt] hashes it
    to ["m:c"]) that expired at time 5, seen at time 10. *)
Definition expired_entry : AICache :=
  mkAICache "highlights" "m:c" (JStr "old") "m" None None (Some 5%Z) 3 0.

Definition expired_world : World := mkWorld [expired_entry] [] [] 10.

Definition empty_world : World := mkWorld [] [] [] 0.

(** [demo_rt] with a chat endpoint that answers without any content. *)
Definition silent_rt : Runtime := {|
  sha256 := fun s => s;
  md5 := fun s => s;
  stringify := fun _ => "";
  json_parse := fun _ => Throw "Unexpected end of JSON input";
  readFile := fun _ => Some "RIFF";
  whisper := fun _ _ => Ok (JObj [("duration", JNum 60)]);
  chat := fun _ _ => Ok (mkChatResponse None None None);
  embeddings_create := fun batch =>
    Ok (mkEmbeddingResponse (map (fun t => JArr [JStr t]) batch) (Some 1));
  highlights_prompt := fun _ => "highlights";
  topics_prompt := fun _ => "topics"
|}.

(** [demo_rt] with a [JSON.stringify] that tells batches of texts apart. *)
Definition emb_rt : Runtime := {|
  sha256 := fun s => s;
  md5 := fun s => s;
  stringify := fun j => match j with
                        | JArr l => String.concat "," (map (fun x => match x with
                                                                    | JStr t => t
                                                                    | _ => ""
                                                                    end) l)
                        | _ => ""
                        end;
  json_parse := fun _ => Throw "Unexpected end of JSON input";
  readFile := fun _ => Some "RIFF";
  whisper := fun _ _ => Ok (JObj [("duration", JNum 60)]);
  chat := fun _ _ => Throw "503 Service Unavailable";
  embeddings_create := fun batch =>
    Ok (mkEmbeddingResponse (map (fun t => JArr [JStr t]) batch) (Some 1));
  highlights_prompt := fun _ => "highlights";
  topics_prompt := fun _ => "topics"
|}.

(** The 250 texts ["0"], ..., ["249"]. *)
Definition texts250 : list string := map AIServicesCached.string_of_nat (seq 0 250).

(** The second batch of [texts250]. *)
Definition batch2 : list string := firstn 100 (skipn 100 texts250).

(** A cache holding the embeddings of [batch2] only, under its fingerprint. *)
Definition batch2_world : World :=
  mkWorld [mkAICache "embeddings"
             (@AICacheService.generateHash emb_rt (@AIServicesCached.embeddings_batchKey emb_rt batch2)
                AIServicesCached.embeddings_model)
             (JArr (map (fun t => JArr [JStr t]) batch2)) AIServicesCached.embeddings_model
             None None None 0 0] [] [] 0.

End Demo.

(** ** Observables of the orchestrated calls *)

Section Observables.
Context {RT : Runtime}.
Import AICacheService AIServicesCached.

(** The fields of a [CacheEntry] that [set] writes; [get] changes only [hitCount]. *)
Definition written_fields (c : AICache) :=
  (c_type c, c_inputHash c, c_response c, c_model c, c_inputSize c, c_outputSize c,
   c_expiresAt c, c_updatedAt c).

Definition with_cache (w : World) (cache : list AICache) (evs : list Event) : World :=
  mkWorld cache (aPIUsage w) (trace w ++ evs) (clock w).

(** The events [get] may emit after the lookup of [h]. *)
Definition lookup_phase (h : string) (e : Event) : Prop := e = EvDelete h \/ e = EvHit h.

(** The cache fingerprint of one embeddings batch. *)
Definition batch_hash (batch : list string) : string :=
  generateHash (embeddings_batchKey batch) embeddings_model.

(** Every cache entry stored under the fingerprint of one of the batches
    [bs] holds the embeddings [e] gives to that batch's texts. *)
Definition cache_holds (e : string -> json) (bs : list (list string)) (cache : list AICache) : Prop :=
  forall b c, In b bs -> In c cache -> has_hash (batch_hash b) c = true ->
              c_response c = JArr (map e b).

(** The events of one batch: a hit, or a miss (after an expiry delete or not)
    with one provider call, its usage record and the store. *)
Definition batch_events (batch : list string) (evs : list Event) : Prop :=
  let h := batch_hash batch in
  evs = [EvLookup h; EvHit h; EvRecord true] \/
  evs = [EvLookup h; EvProvider "embeddings"; EvRecord false; EvStore h] \/
  evs = [EvLookup h; EvDelete h; EvProvider "embeddings"; EvRecord false; EvStore h].

(** The unique index on [inputHash]: at most one entry per fingerprint. *)
Definition unique_index (cache : list AICache) : Prop := NoDup (map c_inputHash cache).

(** The first-occurrence scan shared by [distinct] and [distinct_tc], for a
    membership test [mem] on the keys seen so far. *)
Fixpoint distinct_by {K} (mem : K -> list K -> bool) (seen l : list K) : list K :=
  match l with
  | [] => []
  | k :: l' => if mem k seen then distinct_by mem seen l' else k :: distinct_by mem (k :: seen) l'
  end.

(** Each cost is at most the one before it. *)
Fixpoint cost_nonincreasing (l : list APIUsageTracker.VideoCost) : Prop :=
  match l with
  | x :: ((y :: _) as l') =>
      APIUsageTracker.vc_totalCost y <= APIUsageTracker.vc_totalCost x /\ cost_nonincreasing l'
  | _ => True
  end.

(** Each date is later than the one before it. *)
Fixpoint dates_increasing (l : list APIUsageTracker.DayUsage) : Prop :=
  match l with
  | x :: ((y :: _) as l') =>
      (APIUsageTracker.du_date x < APIUsageTracker.du_date y)%Z /\ dates_increasing l'
  | _ => True
  end.

End Observables.

(** * Properties *)

Ltac str_case x s :=
  let H := fresh "Hne" in
  destruct (String.eqb_spec x s) as [->|H];
  [| repeat rewrite (proj2 (String.eqb_neq x s) H)].

Lemma qplus_nonneg a b : 0 <= a -> 0 <= b -> 0 <= a + b.
Proof.
  intros Ha Hb. apply (Qle_trans _ (0 + 0)); [apply Qle_refl|].
  apply Qplus_le_compat; assumption.
Qed.

Lemma ratio_percent_bounds (a b : Q) :
  0 <= a -> a <= b -> 0 < b -> 0 <= a / b * 100 <= 100.
Proof.
  intros Ha Hab Hb.
  assert (H0 : 0 <= a / b).
  { apply Qle_shift_div_l; [assumption|]. rewrite Qmult_0_l. assumption. }
  assert (H1 : a / b <= 1).
  { apply Qle_shift_div_r; [assumption|]. rewrite Qmult_1_l. assumption. }
  set (x := a / b) in *. split; lra.
Qed.

Lemma inject_nat_nonneg (n : nat) : 0 <= inject_Z (Z.of_nat n).
Proof. change 0 with (inject_Z 0). rewrite <- Zle_Qle. lia. Qed.



Section CostModel.
Import APIUsageTracker CostSpec.

Lemma num_truthy_qty (o : option Q) :
  match num_truthy o with Some q => q | None => 0 end == qty o.
Proof.
  destruct o as [q|]; simpl; [|reflexivity].
  destruct (Qeq_bool q 0) eqn:E; [|reflexivity].
  apply Qeq_bool_iff in E. rewrite E. reflexivity.
Qed.

Lemma calculateCost_spec_eq kind model it ot im :
  calculateCost kind model it ot im == spec_cost kind model it ot im.
Proof.
  pose proof (num_truthy_qty it) as Hi.
  pose proof (num_truthy_qty ot) as Ho.
  pose proof (num_truthy_qty im) as Hm.
  unfold calculateCost, spec_cost, COST_RATES.
  str_case model "whisper-1"; [|str_case model "gpt-4o-mini";
    [|str_case model "text-embedding-3-small"; [|str_case model "text-embedding-3-large"]]];
  cbn -[num_truthy qty Qmult Qdiv Qplus];
  try reflexivity;
  str_case kind "transcription"; cbn -[num_truthy qty Qmult Qdiv Qplus];
  try (str_case kind "completion"; cbn -[num_truthy qty Qmult Qdiv Qplus];
       try (str_case kind "embedding"; cbn -[num_truthy qty Qmult Qdiv Qplus]));
  try reflexivity;
  destruct (num_truthy im), (num_truthy it), (num_truthy ot); simpl in *;
  rewrite <- ?Hi, <- ?Ho, <- ?Hm; field.
Qed.

Lemma spec_cost_nonneg kind model it ot im :
  nonneg it -> nonneg ot -> nonneg im -> 0 <= spec_cost kind model it ot im.
Proof.
  intros Hi Ho Hm.
  assert (0 <= qty it) by (destruct it; simpl in *; [assumption|apply Qle_refl]).
  assert (0 <= qty ot) by (destruct ot; simpl in *; [assumption|apply Qle_refl]).
  assert (0 <= qty im) by (destruct im; simpl in *; [assumption|apply Qle_refl]).
  unfold spec_cost, COST_RATES.
  repeat match goal with |- context [String.eqb ?x ?s] => destruct (String.eqb x s) end;
  cbn -[qty Qmult Qdiv Qplus]; try apply Qle_refl;
  unfold Qdiv;
  repeat first [ assumption | (apply Qle_bool_imp_le; reflexivity) | apply qplus_nonneg
               | apply Qmult_le_0_compat | apply Qinv_le_0_compat ].
Qed.

(** C6: [calculateCost] is a total function; it is [0] for a model missing
    from [COST_RATES]; it is non-negative on non-negative quantities; and it
    equals quantity/unit x rate summed over the input and output components
    that apply to the kind and model, without rounding. *)
Theorem calculateCost_total_priced :
  (forall kind model it ot im,
      COST_RATES model = None -> calculateCost kind model it ot im = 0) /\
  (forall kind model it ot im,
      nonneg it -> nonneg ot -> nonneg im -> 0 <= calculateCost kind model it ot im) /\
  (forall kind model it ot im,
      calculateCost kind model it ot im == spec_cost kind model it ot im).
Proof.
  split; [|split].
  - intros kind model it ot im H. unfold calculateCost. rewrite H. reflexivity.
  - intros kind model it ot im Hi Ho Hm. rewrite calculateCost_spec_eq.
    apply spec_cost_nonneg; assumption.
  - exact calculateCost_spec_eq.
Qed.

Lemma calculateCost_total_priced_witness :
  COST_RATES "gpt-5" = None /\ calculateCost "completion" "gpt-5" (Some 10) None None = 0 /\
  0 <= calculateCost "completion" "gpt-4o-mini" (Some 2000) (Some 1000) None /\
  calculateCost "completion" "gpt-4o-mini" (Some 2000) (Some 1000) None == 9 # 10000.
Proof.
  split; [reflexivity|]. split.
  - apply (proj1 calculateCost_total_priced); reflexivity.
  - split.
    + apply (proj1 (proj2 calculateCost_total_priced)); simpl;
        first [exact I | apply Qle_bool_imp_le; reflexivity].
    + rewrite (proj2 (proj2 calculateCost_total_priced)). reflexivity.
Defined.

End CostModel.

Section HitRates.
Import APIUsageTracker AICacheService.

Lemma length_filter_le {A} (p : A -> bool) (l : list A) : (length (filter p l) <= length l)%nat.
Proof.
  induction l as [|x l IH]; simpl; [lia|]. destruct (p x); simpl; lia.
Qed.

(** C1 (claim as written): on the non-empty ledger [ledger_one_hit], the
    [cacheHitRate] of [getUsageStats] is not [cachedCount / totalCount = 1]
    and lies outside [[0,1]]: it is [100]. *)
Lemma getUsageStats_cacheHitRate_not_fraction :
  us_cacheHitRate (getUsageStats None None None Demo.ledger_one_hit) == 100 /\
  ~ (us_cacheHitRate (getUsageStats None None None Demo.ledger_one_hit) <= 1).
Proof.
  split; [reflexivity|].
  intro H. apply Qle_bool_iff in H. vm_compute in H. discriminate.
Qed.

(** C1 (amended): [getUsageStats] returns a [cacheHitRate] of [0] when the
    filtered ledger is empty and otherwise
    [cacheHitRate = cachedCount / totalCount * 100], a percentage in
    [[0,100]]. *)
Theorem getUsageStats_cacheHitRate_percent (startDate endDate : option Z)
    (userId : option string) (w : World) :
  let rows := filter (matches startDate endDate userId) (aPIUsage w) in
  (rows = [] -> us_cacheHitRate (getUsageStats startDate endDate userId w) == 0) /\
  (rows <> [] ->
   us_cacheHitRate (getUsageStats startDate endDate userId w)
     == inject_Z (Z.of_nat (length (filter u_cached rows)))
        / inject_Z (Z.of_nat (length rows)) * 100 /\
   0 <= us_cacheHitRate (getUsageStats startDate endDate userId w) <= 100).
Proof.
  intros rows. split.
  - intros He. unfold getUsageStats. fold rows. rewrite He. reflexivity.
  - intros Hne. unfold getUsageStats. fold rows.
    assert (Hpos : (0 < length rows)%nat) by (destruct rows; [congruence|simpl; lia]).
    apply Nat.ltb_lt in Hpos as Hb. simpl. rewrite Hb. split; [reflexivity|].
    apply ratio_percent_bounds.
    + apply inject_nat_nonneg.
    + rewrite <- Zle_Qle. pose proof (length_filter_le u_cached rows). lia.
    + change 0 with (inject_Z 0). rewrite <- Zlt_Qlt. lia.
Qed.

Lemma getUsageStats_cacheHitRate_percent_witness :
  filter (matches None None None) (aPIUsage Demo.ledger_one_hit) <> [] /\
  0 <= us_cacheHitRate (getUsageStats None None None Demo.ledger_one_hit) <= 100 /\
  us_cacheHitRate (getUsageStats None None None Demo.empty_world) == 0.
Proof.
  split; [simpl; discriminate|]. split.
  - apply (proj2 (getUsageStats_cacheHitRate_percent None None None Demo.ledger_one_hit)).
    simpl; discriminate.
  - apply (proj1 (getUsageStats_cacheHitRate_percent None None None Demo.empty_world)).
    reflexivity.
Defined.




End HitRates.

Section CacheStore.
Context {RT : Runtime}.
Import AICacheService AIServicesCached.

(** C10: the transcription fingerprint is [md5(fileBytes) + ':' + (language || 'en')],
    so omitting the language and passing ['en'] give the same cache key, and
    the two calls behave identically on every world: they look up, hit,
    create and refresh the same [CacheEntry]. *)
Theorem transcription_default_language_shares_entry (fileBuffer audioPath : string)
    (videoId userId : option string) (w : World) :
  transcription_cacheKey fileBuffer None = md5 fileBuffer ++ ":" ++ "en" /\
  transcription_cacheKey fileBuffer None = transcription_cacheKey fileBuffer (Some "en") /\
  transcribeAudioCached audioPath None videoId userId w
    = transcribeAudioCached audioPath (Some "en") videoId userId w.
Proof. split; [|split]; reflexivity. Qed.

Lemma findUnique_has_hash (h : string) (l : list AICache) (c : AICache) :
  findUnique h l = Some c -> has_hash h c = true.
Proof.
  induction l as [|x l IH]; simpl; [discriminate|].
  destruct (String.eqb (c_inputHash x) h) eqn:E; [|exact IH].
  intros [= <-]. exact E.
Qed.

Lemma findUnique_filter_out (h : string) (l : list AICache) :
  findUnique h (filter (fun c => negb (has_hash h c)) l) = None.
Proof.
  induction l as [|x l IH]; simpl; [reflexivity|].
  unfold has_hash at 1. destruct (String.eqb (c_inputHash x) h) eqn:E; simpl; [exact IH|].
  rewrite E. exact IH.
Qed.

Lemma findUnique_map (h : string) (f : AICache -> AICache) (l : list AICache) (c : AICache) :
  (forall x, has_hash h (f x) = has_hash h x) ->
  findUnique h l = Some c -> findUnique h (map f l) = Some (f c).
Proof.
  intros Hf. induction l as [|x l IH]; simpl; [discriminate|].
  pose proof (Hf x) as Hx. unfold has_hash in Hx. rewrite Hx.
  destruct (String.eqb (c_inputHash x) h); [intros [= <-]; reflexivity|exact IH].
Qed.

Lemma increment_hit_hash (h : string) (x : AICache) :
  has_hash h (increment_hit h x) = has_hash h x.
Proof. unfold increment_hit. destruct (has_hash h x) eqn:E; [exact E|exact E]. Qed.

(** C3: a [get] whose fingerprint finds an entry with [expiresAt] in the past
    returns [null] and deletes that entry (lazy expiration, no
    [clearExpired]); on an entry that is not expired it increments
    [hitCount] and returns the stored payload. *)
Theorem get_lazy_expiration (type content model : string) (w : World) (c : AICache) :
  let h := generateHash content model in
  findUnique h (aICache w) = Some c ->
  (forall e, c_expiresAt c = Some e -> (e < clock w)%Z ->
     get type content model w =
       (Ok JNull, mkWorld (filter (fun c' => negb (has_hash h c')) (aICache w)) (aPIUsage w)
                    (trace w ++ [EvLookup h; EvDelete h]) (clock w)) /\
     findUnique h (aICache (snd (get type content model w))) = None) /\
  ((forall e, c_expiresAt c = Some e -> (clock w <= e)%Z) ->
     get type content model w =
       (Ok (c_response c), mkWorld (map (increment_hit h) (aICache w)) (aPIUsage w)
                             (trace w ++ [EvLookup h; EvHit h]) (clock w)) /\
     findUnique h (aICache (snd (get type content model w))) = Some (increment_hit h c) /\
     c_hitCount (increment_hit h c) = (c_hitCount c + 1)%Z).
Proof.
  intros h Hfind. split.
  - intros e He Hlt.
    assert (Hget : get type content model w =
       (Ok JNull, mkWorld (filter (fun c' => negb (has_hash h c')) (aICache w)) (aPIUsage w)
                    (trace w ++ [EvLookup h; EvDelete h]) (clock w))).
    { unfold get, bind, emit, read_cache, now, delete, modify_cache, ret; simpl.
      fold h. rewrite Hfind. simpl. rewrite He. apply Z.ltb_lt in Hlt. rewrite Hlt.
      simpl. rewrite <- app_assoc. reflexivity. }
    split; [exact Hget|]. rewrite Hget. apply findUnique_filter_out.
  - intros Hnot.
    assert (Hget : get type content model w =
       (Ok (c_response c), mkWorld (map (increment_hit h) (aICache w)) (aPIUsage w)
                             (trace w ++ [EvLookup h; EvHit h]) (clock w))).
    { unfold get, bind, emit, read_cache, now, delete, modify_cache, ret; simpl.
      fold h. rewrite Hfind. simpl.
      destruct (c_expiresAt c) as [e|] eqn:He.
      - specialize (Hnot e eq_refl). destruct (Z.ltb_spec e (clock w)); [lia|].
        simpl. rewrite <- app_assoc. reflexivity.
      - simpl. rewrite <- app_assoc. reflexivity. }
    split; [exact Hget|]. rewrite Hget. simpl. split.
    + apply findUnique_map; [apply increment_hit_hash|exact Hfind].
    + unfold increment_hit. rewrite (findUnique_has_hash _ _ _ Hfind). reflexivity.
Qed.







Lemma findUnique_app_last h (l : list AICache) (x : AICache) :
  findUnique h l = None -> has_hash h x = true -> findUnique h (l ++ [x]) = Some x.
Proof.
  intros Hl Hx. induction l as [|y l IH]; simpl in *.
  - unfold has_hash in Hx. rewrite Hx. reflexivity.
  - destruct (String.eqb (c_inputHash y) h); [discriminate|exact (IH Hl)].
Qed.


(** The effect of [set] on the cache table. *)
Lemma set_cache_table type content model r d i o (w : World) :
  let h := generateHash content model in
  let t := clock w in
  aICache (snd (set type content model r d i o w)) =
    (if existsb (has_hash h) (aICache w)
     then map (update_entry h r i o (expiry t d) t) (aICache w)
     else aICache w ++ [mkAICache type h r model i o (expiry t d) 0 t])%list /\
  clock (snd (set type content model r d i o w)) = clock w.
Proof.
  intros h t. unfold set, bind, now, emit, read_cache, modify_cache; simpl.
  fold h. destruct (existsb (has_hash h) (aICache w)); split; reflexivity.
Qed.



End CacheStore.


Lemma get_lazy_expiration_witness :
  AICacheService.findUnique "m:c" (aICache Demo.expired_world) = Some Demo.expired_entry /\
  AICacheService.findUnique "m:c"
    (aICache (snd (@AICacheService.get Demo.demo_rt "highlights" "c" "m" Demo.expired_world)))
  = None.
Proof.
  split; [reflexivity|].
  apply (proj1 (@get_lazy_expiration Demo.demo_rt "highlights" "c" "m" Demo.expired_world
                  Demo.expired_entry eq_refl) 5%Z eq_refl).
  reflexivity.
Defined.


Section Orchestration.
Context {RT : Runtime}.
Import AICacheService APIUsageTracker AIServicesCached.

(** The three outcomes of [get]: absent, expired (and deleted), hit. *)
Lemma get_cases (type content model : string) (w : World) :
  let h := generateHash content model in
  (findUnique h (aICache w) = None /\
   get type content model w = (Ok JNull, with_cache w (aICache w) [EvLookup h])) \/
  (exists c e, findUnique h (aICache w) = Some c /\ c_expiresAt c = Some e /\ (e < clock w)%Z /\
   get type content model w =
     (Ok JNull, with_cache w (filter (fun c' => negb (has_hash h c')) (aICache w))
                  [EvLookup h; EvDelete h])) \/
  (exists c, findUnique h (aICache w) = Some c /\
   get type content model w =
     (Ok (c_response c), with_cache w (map (increment_hit h) (aICache w)) [EvLookup h; EvHit h])).
Proof.
  intros h. unfold get, bind, emit, read_cache, now, delete, modify_cache, ret, with_cache; simpl.
  fold h. destruct (findUnique h (aICache w)) as [c|] eqn:Hf; simpl.
  - right. destruct (c_expiresAt c) as [e|] eqn:He.
    + destruct (Z.ltb_spec e (clock w)).
      * left. exists c, e. repeat split; try assumption. simpl. rewrite <- app_assoc. reflexivity.
      * right. exists c. split; [reflexivity|]. simpl. rewrite <- app_assoc. reflexivity.
    + right. exists c. split; [reflexivity|]. simpl. rewrite <- app_assoc. reflexivity.
  - left. split; reflexivity.
Qed.

Lemma incl_filter_fields h (l : list AICache) :
  incl (map written_fields (filter (fun c => negb (has_hash h c)) l)) (map written_fields l).
Proof.
  intros x Hx. apply in_map_iff in Hx as [c [<- Hc]]. apply filter_In in Hc as [Hc _].
  apply in_map. exact Hc.
Qed.

Lemma incl_increment_fields h (l : list AICache) :
  incl (map written_fields (map (increment_hit h) l)) (map written_fields l).
Proof.
  intros x Hx. rewrite map_map in Hx. apply in_map_iff in Hx as [c [<- Hc]].
  replace (written_fields (increment_hit h c)) with (written_fields c)
    by (unfold increment_hit; destruct (has_hash h c); reflexivity).
  apply in_map. exact Hc.
Qed.

Ltac fail_goals cache_lemma :=
  split; [reflexivity|]; split; [reflexivity|];
  split; [intros ? H; simpl in H; intuition discriminate|];
  split; [intros ? H; simpl in H; intuition discriminate|apply cache_lemma].

(** C2: when highlight generation reaches the provider and the provider call
    fails, or its response fails validation ([JSON.parse] fails,
    [highlights] is missing or not an array), the caller receives
    ["Highlight generation failed: " ++ cause]; no [CacheEntry] is stored
    (no [set], and no payload, expiry or size of any entry changes), and no
    [UsageRecord] is written. *)
Theorem highlights_failure_writes_nothing (transcript : string)
    (segments : list (string * Q * Q)) (videoId userId : option string) (w : World)
    (cause : string) :
  (chat "highlights" (highlights_prompt segments) = Throw cause \/
   exists response, chat "highlights" (highlights_prompt segments) = Ok response /\
                    parse_highlights response = Throw cause) ->
  forall o w' evs,
  generateHighlightsCached transcript segments videoId userId w = (o, w') ->
  trace w' = (trace w ++ evs)%list ->
  In (EvProvider "highlights") evs ->
  o = Throw ("Highlight generation failed: " ++ cause) /\
  aPIUsage w' = aPIUsage w /\
  (forall h, ~ In (EvStore h) evs) /\ (forall b, ~ In (EvRecord b) evs) /\
  incl (map written_fields (aICache w')) (map written_fields (aICache w)).
Proof.
  intros Hfail o w' evs Hrun Htr Hin.
  unfold generateHighlightsCached, generateHighlights_body, try_catch, bind at 1 in Hrun.
  set (key := md5 (transcript ++ ":" ++ stringify (segments_json segments))) in Hrun.
  destruct (get_cases "highlights" key highlights_model w)
    as [[Hf Hg] | [[c [e [Hf [He [Hlt Hg]]]]] | [c [Hf Hg]]]];
    rewrite Hg in Hrun; cbn -[parse_highlights] in Hrun.
  all: fold key in Hrun.
  - (* absent *)
    destruct Hfail as [Hc | [resp [Hc Hp]]]; rewrite Hc in Hrun; cbn -[parse_highlights] in Hrun;
      [|rewrite Hp in Hrun; cbn -[parse_highlights] in Hrun];
      injection Hrun as <- <-; simpl in Htr; rewrite <- app_assoc in Htr;
      apply app_inv_head in Htr; subst evs;
      fail_goals incl_refl.
  - (* expired *)
    destruct Hfail as [Hc | [resp [Hc Hp]]]; rewrite Hc in Hrun; cbn -[parse_highlights] in Hrun;
      [|rewrite Hp in Hrun; cbn -[parse_highlights] in Hrun];
      injection Hrun as <- <-; simpl in Htr; rewrite <- app_assoc in Htr;
      apply app_inv_head in Htr; subst evs;
      fail_goals incl_filter_fields.
  - (* entry found and not expired *)
    destruct (truthy (c_response c)) eqn:Ht; cbn -[parse_highlights] in Hrun.
    + (* served from cache: the provider is not called *)
      unfold track, trackUsage, bind, now, emit, append_usage, ret in Hrun. cbn -[parse_highlights] in Hrun.
      match type of Hrun with context [if ?b then _ else _] => destruct b end;
      injection Hrun as <- <-; simpl in Htr; rewrite <- !app_assoc in Htr;
      apply app_inv_head in Htr; subst evs; simpl in Hin;
      destruct Hin as [H|[H|[H|[]]]]; discriminate.
    + (* a falsy stored payload counts as a miss *)
      destruct Hfail as [Hc | [resp [Hc Hp]]]; rewrite Hc in Hrun; cbn -[parse_highlights] in Hrun;
        [|rewrite Hp in Hrun; cbn -[parse_highlights] in Hrun];
        injection Hrun as <- <-; simpl in Htr; rewrite <- app_assoc in Htr;
        apply app_inv_head in Htr; subst evs;
        fail_goals incl_increment_fields.
Qed.

End Orchestration.

Lemma highlights_failure_writes_nothing_witness :
  fst (@AIServicesCached.generateHighlightsCached Demo.demo_rt "t" [] None None Demo.empty_world)
    = Throw ("Highlight generation failed: " ++ "503 Service Unavailable") /\
  aPIUsage (snd (@AIServicesCached.generateHighlightsCached Demo.demo_rt "t" [] None None
                   Demo.empty_world)) = aPIUsage Demo.empty_world.
Proof.
  destruct (@highlights_failure_writes_nothing Demo.demo_rt "t" [] None None Demo.empty_world
              "503 Service Unavailable" (or_introl eq_refl) _ _
              (trace (snd (@AIServicesCached.generateHighlightsCached Demo.demo_rt "t" [] None None
                             Demo.empty_world)))
              (surjective_pairing _) eq_refl
              ltac:(vm_compute; right; left; reflexivity))
    as [Ho [Hl _]].
  split; assumption.
Defined.

Section ErrorPaths.
Context {RT : Runtime}.
Import AIServicesCached.

Lemma try_catch_throw {A} (m : M A) (handler : string -> M A) (w : World) (msg : string) :
  fst (m w) = Throw msg -> try_catch m handler w = handler msg (snd (m w)).
Proof. unfold try_catch. destruct (m w) as [[a|e] w']; simpl; congruence. Qed.

(** C5: [extractKeyTopicsCached] never propagates an error: whatever its
    [try] block throws (provider error, [JSON.parse] error, a property read
    on [null]), it resolves to the empty list; the sibling capabilities
    rethrow the cause with a capability label. *)
Theorem topics_failure_swallowed (transcript : string) (videoId userId : option string)
    (w : World) :
  (exists r, fst (extractKeyTopicsCached transcript videoId userId w) = Ok r) /\
  (forall msg, fst (extractKeyTopics_body transcript videoId userId w) = Throw msg ->
     fst (extractKeyTopicsCached transcript videoId userId w) = Ok (JArr [])) /\
  (forall segments msg,
     fst (generateHighlights_body transcript segments videoId userId w) = Throw msg ->
     fst (generateHighlightsCached transcript segments videoId userId w)
       = Throw ("Highlight generation failed: " ++ msg)) /\
  (forall audioPath language msg,
     fst (transcribeAudio_body audioPath language videoId userId w) = Throw msg ->
     fst (transcribeAudioCached audioPath language videoId userId w)
       = Throw ("Transcription failed: " ++ msg)) /\
  (forall texts msg,
     fst (embeddings_loop (batches texts) videoId userId [] w) = Throw msg ->
     fst (generateEmbeddingsCached texts videoId userId w)
       = Throw ("Embedding generation failed: " ++ msg)).
Proof.
  split; [|split; [|split; [|split]]].
  - unfold extractKeyTopicsCached, try_catch.
    destruct (extractKeyTopics_body transcript videoId userId w) as [[r|e] w']; simpl; eauto.
  - intros msg H. unfold extractKeyTopicsCached. rewrite (try_catch_throw _ _ _ msg H).
    reflexivity.
  - intros segments msg H. unfold generateHighlightsCached.
    rewrite (try_catch_throw _ _ _ msg H). reflexivity.
  - intros audioPath language msg H. unfold transcribeAudioCached.
    rewrite (try_catch_throw _ _ _ msg H). reflexivity.
  - intros texts msg H. unfold generateEmbeddingsCached.
    rewrite (try_catch_throw _ _ _ msg H). reflexivity.
Qed.

End ErrorPaths.

Lemma topics_failure_swallowed_witness :
  fst (@AIServicesCached.extractKeyTopics_body Demo.demo_rt "t" None None Demo.empty_world)
    = Throw "503 Service Unavailable" /\
  fst (@AIServicesCached.extractKeyTopicsCached Demo.demo_rt "t" None None Demo.empty_world)
    = Ok (JArr []).
Proof.
  split; [reflexivity|].
  apply (proj1 (proj2 (@topics_failure_swallowed Demo.demo_rt "t" None None Demo.empty_world))
           "503 Service Unavailable").
  reflexivity.
Defined.

(** The demo transcription: a miss, answered by the provider, stored under
    the fingerprint ["whisper-1:RIFF:en"]. *)
Lemma transcription_miss_trace :
  @AIServicesCached.transcribeAudioCached Demo.demo_rt "a.wav" None None None Demo.empty_world
  = (Ok (JObj [("duration", JNum 60)]),
     mkWorld [mkAICache "transcription" "whisper-1:RIFF:en" (JObj [("duration", JNum 60)])
                "whisper-1" (Some 4%Z) (Some 0%Z) (Some (60 * 24 * 60 * 60 * 1000)%Z) 0 0]
             [mkAPIUsage "transcription" "whisper-1" None None (Some 60) (60 * (6 # 1000)) false
                None None 0]
             [EvLookup "whisper-1:RIFF:en"; EvProvider "transcription"; EvRecord false;
              EvStore "whisper-1:RIFF:en"]
             0).
Proof. reflexivity. Qed.

(** C4 (claim as written): in a successful cache-miss transcription the
    [CacheEntry] write (STORE) does not happen before the [UsageRecord]
    write (RECORD_MISS): the trace has no STORE followed later by the
    RECORD. *)
Lemma transcription_store_not_before_record :
  ~ exists pre mid post,
      trace (snd (@AIServicesCached.transcribeAudioCached Demo.demo_rt "a.wav" None None None
                    Demo.empty_world))
      = (pre ++ EvStore "whisper-1:RIFF:en" :: mid ++ EvRecord false :: post)%list.
Proof.
  rewrite transcription_miss_trace. simpl.
  intros [pre [mid [post H]]].
  destruct pre as [|e1 [|e2 [|e3 [|e4 pre]]]]; simpl in H; inversion H; subst;
    try (destruct mid; simpl in *; discriminate);
    try (destruct pre; simpl in *; discriminate).
Qed.

Section MissOrder.
Context {RT : Runtime}.
Import AICacheService APIUsageTracker AIServicesCached.

Lemma try_catch_rethrow_ok {A} (m : M A) (label : string -> string) (w : World) (v : A) (w' : World) :
  try_catch m (fun msg => throw (label msg)) w = (Ok v, w') -> m w = (Ok v, w').
Proof. unfold try_catch, throw. destruct (m w) as [[a|e] w'']; congruence. Qed.

Lemma track_effect ty model it ot im b videoId userId (w : World) :
  exists u, track ty model it ot im b videoId userId w
            = (Ok tt, mkWorld (aICache w) u (trace w ++ [EvRecord b]) (clock w)).
Proof.
  unfold track, trackUsage, bind, now, emit, append_usage, ret. cbn.
  destruct (int_column it && int_column ot); eexists; reflexivity.
Qed.

Lemma track_row ty model it ot im b videoId userId (w : World) :
  int_column it && int_column ot = true ->
  track ty model it ot im b videoId userId w
  = (Ok tt, mkWorld (aICache w)
              (aPIUsage w ++ [mkAPIUsage ty model it ot im (calculateCost ty model it ot im) b
                                videoId userId (clock w)])
              (trace w ++ [EvRecord b]) (clock w)).
Proof.
  intros Hv. unfold track, trackUsage, bind, now, emit, append_usage, ret. cbn.
  rewrite Hv. reflexivity.
Qed.

Lemma set_effect ty content model resp d i o (w : World) :
  exists cache', set ty content model resp d i o w
            = (Ok tt, mkWorld cache' (aPIUsage w) (trace w ++ [EvStore (generateHash content model)])
                        (clock w)).
Proof.
  unfold set, bind, now, emit, read_cache, modify_cache; simpl.
  destruct (existsb _ _); eexists; reflexivity.
Qed.

Ltac run_step H :=
  cbn -[track set get generateHash] in H; unfold bind at 1 in H;
  first
    [ match type of H with
      | context [track ?a ?b ?c ?d ?e ?f ?g ?h ?ww] =>
          let r := fresh "r" in let E := fresh "E" in
          destruct (track_effect a b c d e f g h ww) as [r E]; rewrite E in H
      end
    | match type of H with
      | context [set ?a ?b ?c ?d ?e ?f ?g ?ww] =>
          let r := fresh "cache" in let E := fresh "E" in
          destruct (set_effect a b c d e f g ww) as [r E]; rewrite E in H
      end ].

Lemma get_shape (type content model : string) (w : World) :
  let h := generateHash content model in
  exists v0 cache0 pre,
    get type content model w = (Ok v0, with_cache w cache0 (EvLookup h :: pre)) /\
    Forall (lookup_phase h) pre /\
    (truthy v0 = true -> pre = [EvHit h]).
Proof.
  intros h.
  destruct (get_cases type content model w)
    as [[Hf Hg] | [[c [e [Hf [He [Hlt Hg]]]]] | [c [Hf Hg]]]]; fold h in Hg.
  - exists JNull, (aICache w), []. split; [exact Hg|]. split; [constructor|discriminate].
  - exists JNull, (filter (fun c' => negb (has_hash h c')) (aICache w)), [EvDelete h].
    split; [exact Hg|]. split; [repeat constructor; left; reflexivity|discriminate].
  - exists (c_response c), (map (increment_hit h) (aICache w)), [EvHit h].
    split; [exact Hg|]. split; [repeat constructor; right; reflexivity|reflexivity].
Qed.

Lemma transcription_miss_order (audioPath : string) (language videoId userId : option string)
    (w : World) (v : json) (w' : World) (evs : list Event) :
  transcribeAudioCached audioPath language videoId userId w = (Ok v, w') ->
  trace w' = (trace w ++ evs)%list ->
  In (EvProvider "transcription") evs ->
  exists h pre, evs = EvLookup h :: pre ++ [EvProvider "transcription"; EvRecord false; EvStore h]
                /\ Forall (lookup_phase h) pre.
Proof.
  intros Hrun Htr Hin.
  apply try_catch_rethrow_ok in Hrun.
  unfold transcribeAudio_body in Hrun.
  unfold bind at 1, read_file, lift at 1 in Hrun.
  destruct (readFile audioPath) as [bytes|] eqn:Hr; [|discriminate].
  cbn -[get set track transcription_cacheKey transcription_model] in Hrun.
  unfold bind at 1 in Hrun.
  destruct (get_shape "transcription" (transcription_cacheKey bytes language) transcription_model w)
    as [v0 [cache0 [pre [Hg [Hpre Hhit]]]]].
  rewrite Hg in Hrun.
  set (h := generateHash (transcription_cacheKey bytes language) transcription_model) in *.
  destruct (truthy v0) eqn:Ht.
  - specialize (Hhit eq_refl). subst pre.
    cbn -[track set get generateHash] in Hrun.
    destruct (js_field v0 "duration") as [d|e]; [|discriminate].
    run_step Hrun. cbn in Hrun. injection Hrun as <- <-. simpl in Htr.
    rewrite <- !app_assoc in Htr. apply app_inv_head in Htr. subst evs.
    simpl in Hin. intuition discriminate.
  - cbn -[track set get generateHash] in Hrun.
    destruct (whisper bytes (str_or language transcription_language)) as [res|e]; [|discriminate].
    cbn -[track set get generateHash] in Hrun.
    destruct (js_field res "duration") as [d|e]; [|discriminate].
    run_step Hrun. run_step Hrun. cbn in Hrun. injection Hrun as <- <-. simpl in Htr.
    rewrite <- !app_assoc in Htr. apply app_inv_head in Htr. subst evs.
    exists h, pre. split; [reflexivity|exact Hpre].
Qed.
Lemma highlights_miss_order (transcript : string) (segments : list (string * Q * Q))
    (videoId userId : option string)
    (w : World) (v : json) (w' : World) (evs : list Event) :
  generateHighlightsCached transcript segments videoId userId w = (Ok v, w') ->
  trace w' = (trace w ++ evs)%list ->
  In (EvProvider "highlights") evs ->
  exists h pre, evs = EvLookup h :: pre ++ [EvProvider "highlights"; EvRecord false; EvStore h]
                /\ Forall (lookup_phase h) pre.
Proof.
  intros Hrun Htr Hin.
  apply try_catch_rethrow_ok in Hrun.
  unfold generateHighlights_body in Hrun.
  unfold bind at 1 in Hrun.
  destruct (get_shape "highlights" (md5 (transcript ++ ":" ++ stringify (segments_json segments)))
              highlights_model w)
    as [v0 [cache0 [pre [Hg [Hpre Hhit]]]]].
  rewrite Hg in Hrun.
  set (h := generateHash (md5 (transcript ++ ":" ++ stringify (segments_json segments)))
              highlights_model) in *.
  destruct (truthy v0) eqn:Ht.
  - specialize (Hhit eq_refl). subst pre.
    run_step Hrun. cbn in Hrun. injection Hrun as <- <-. simpl in Htr.
    rewrite <- !app_assoc in Htr. apply app_inv_head in Htr. subst evs.
    simpl in Hin. intuition discriminate.
  - cbn -[track set get generateHash parse_highlights] in Hrun.
    destruct (chat "highlights" (highlights_prompt segments)) as [resp|e]; [|discriminate].
    cbn -[track set get generateHash parse_highlights] in Hrun.
    destruct (parse_highlights resp) as [res|e]; [|discriminate].
    run_step Hrun. run_step Hrun. cbn in Hrun. injection Hrun as <- <-. simpl in Htr.
    rewrite <- !app_assoc in Htr. apply app_inv_head in Htr. subst evs.
    exists h, pre. split; [reflexivity|exact Hpre].
Qed.

(** C4 (amended): in a successful orchestrated cache-miss invocation of the
    transcription or highlights capability, the events after the call are the
    lookup of the fingerprint [h] (with at most an expiry delete), the provider
    call, the usage record of the miss, and then the cache store under [h]:
    the usage record is written before the cache entry. *)
Theorem cache_miss_records_then_stores :
  (forall (audioPath : string) (language videoId userId : option string)
          (w : World) (v : json) (w' : World) (evs : list Event),
      transcribeAudioCached audioPath language videoId userId w = (Ok v, w') ->
      trace w' = (trace w ++ evs)%list ->
      In (EvProvider "transcription") evs ->
      exists h pre,
        evs = EvLookup h :: pre ++ [EvProvider "transcription"; EvRecord false; EvStore h]
        /\ Forall (lookup_phase h) pre) /\
  (forall (transcript : string) (segments : list (string * Q * Q))
          (videoId userId : option string)
          (w : World) (v : json) (w' : World) (evs : list Event),
      generateHighlightsCached transcript segments videoId userId w = (Ok v, w') ->
      trace w' = (trace w ++ evs)%list ->
      In (EvProvider "highlights") evs ->
      exists h pre,
        evs = EvLookup h :: pre ++ [EvProvider "highlights"; EvRecord false; EvStore h]
        /\ Forall (lookup_phase h) pre).
Proof.
  split; [exact transcription_miss_order | exact highlights_miss_order].
Qed.

End MissOrder.

Lemma cache_miss_records_then_stores_witness :
  exists h pre,
    [EvLookup "whisper-1:RIFF:en"; EvProvider "transcription"; EvRecord false;
     EvStore "whisper-1:RIFF:en"]
    = EvLookup h :: pre ++ [EvProvider "transcription"; EvRecord false; EvStore h]
    /\ Forall (lookup_phase h) pre.
Proof.
  eapply (proj1 (@cache_miss_records_then_stores Demo.demo_rt) "a.wav" None None None
           Demo.empty_world _ _).
  - reflexivity.
  - reflexivity.
  - simpl. auto.
Defined.

Section Batching.
Import AIServicesCached.

Lemma length_slice {A} (l : list A) (i : nat) :
  length (slice l i (i + batchSize)) = Nat.min batchSize (length l - i).
Proof.
  unfold slice. rewrite length_firstn, length_skipn.
  replace (i + batchSize - i)%nat with batchSize by lia. reflexivity.
Qed.

Lemma batch_starts_concat (texts : list string) (fuel i : nat) :
  (length texts - i <= batchSize * fuel)%nat ->
  concat (map (fun j => slice texts j (j + batchSize)) (batch_starts fuel i (length texts)))
  = skipn i texts.
Proof.
  revert i. induction fuel as [|fuel IH]; intros i Hf; simpl.
  - rewrite skipn_all2; [reflexivity|unfold batchSize in Hf; lia].
  - destruct (Nat.ltb_spec i (length texts)) as [Hlt|Hge]; simpl.
    + rewrite IH by (unfold batchSize in *; lia).
      unfold slice. replace (i + batchSize - i)%nat with batchSize by lia.
      rewrite <- (firstn_skipn batchSize (skipn i texts)) at 2.
      rewrite skipn_skipn. f_equal. f_equal. lia.
    + rewrite skipn_all2; [reflexivity|lia].
Qed.

Lemma batch_starts_sizes (texts : list string) (fuel i : nat) :
  let L := map (fun j => slice texts j (j + batchSize)) (batch_starts fuel i (length texts)) in
  (forall b, In b L -> (0 < length b <= batchSize)%nat) /\
  (forall L1 b L2, L = (L1 ++ b :: L2)%list -> L2 <> [] -> length b = batchSize).
Proof.
  revert i. induction fuel as [|fuel IH]; intros i L; subst L; simpl.
  - split; [intros b []|intros L1 b L2 H; destruct L1; discriminate].
  - destruct (Nat.ltb_spec i (length texts)) as [Hlt|Hge]; simpl.
    + destruct (IH (i + batchSize)%nat) as [IH1 IH2]. split.
      * intros b [<-|Hb]; [|exact (IH1 b Hb)].
        rewrite length_slice. unfold batchSize in *. lia.
      * intros [|x L1] b L2 H Hne; simpl in H; injection H as Hx HL.
        -- subst b. rewrite length_slice.
           destruct fuel as [|fuel']; [simpl in HL; subst L2; exfalso; exact (Hne eq_refl)|].
           simpl in HL. destruct (Nat.ltb_spec (i + batchSize) (length texts)).
           ++ unfold batchSize in *. lia.
           ++ simpl in HL. subst L2. exfalso; exact (Hne eq_refl).
        -- exact (IH2 L1 b L2 HL Hne).
    + split; [intros b []|intros L1 b L2 H; destruct L1; discriminate].
Qed.

End Batching.

Section EmbeddingRuns.
Context {RT : Runtime}.
Import AICacheService APIUsageTracker AIServicesCached.

Lemma findUnique_In (h : string) (l : list AICache) (c : AICache) :
  findUnique h l = Some c -> In c l.
Proof.
  induction l as [|x l IH]; simpl; [discriminate|].
  destruct (String.eqb (c_inputHash x) h); [intros [= <-]; left; reflexivity|].
  intros H. right. exact (IH H).
Qed.

Lemma has_hash_same (h1 h2 : string) (c : AICache) :
  has_hash h1 c = true -> has_hash h2 c = true -> h1 = h2.
Proof.
  unfold has_hash. intros H1 H2. apply String.eqb_eq in H1, H2. congruence.
Qed.

Lemma set_run ty content model resp d i o (w : World) :
  let h := generateHash content model in
  set ty content model resp d i o w
  = (Ok tt, mkWorld
              (if existsb (has_hash h) (aICache w)
               then map (update_entry h resp i o (expiry (clock w) d) (clock w)) (aICache w)
               else (aICache w ++ [mkAICache ty h resp model i o (expiry (clock w) d) 0 (clock w)])%list)
              (aPIUsage w) (trace w ++ [EvStore h])%list (clock w)).
Proof.
  intros h. unfold set, bind, now, emit, read_cache, modify_cache; simpl.
  fold h. destruct (existsb (has_hash h) (aICache w)); reflexivity.
Qed.

Lemma cache_holds_filter e bs h (l : list AICache) :
  cache_holds e bs l -> cache_holds e bs (filter (fun c => negb (has_hash h c)) l).
Proof.
  intros Hl b c Hb Hc. apply filter_In in Hc. exact (Hl b c Hb (proj1 Hc)).
Qed.

Lemma cache_holds_increment e bs h (l : list AICache) :
  cache_holds e bs l -> cache_holds e bs (map (increment_hit h) l).
Proof.
  intros Hl b c Hb Hc Hh. apply in_map_iff in Hc as [x [<- Hx]].
  unfold increment_hit in *. destruct (has_hash h x); [|exact (Hl b x Hb Hx Hh)].
  simpl. apply (Hl b x Hb Hx). exact Hh.
Qed.

Lemma cache_holds_store e bs b ty i o ex t (l : list AICache) :
  (forall b', In b' bs -> batch_hash b' = batch_hash b -> map e b' = map e b) ->
  cache_holds e bs l ->
  cache_holds e bs
    (if existsb (has_hash (batch_hash b)) l
     then map (update_entry (batch_hash b) (JArr (map e b)) i o ex t) l
     else (l ++ [mkAICache ty (batch_hash b) (JArr (map e b)) embeddings_model i o ex 0 t])%list).
Proof.
  intros Hcol Hl. destruct (existsb _ _).
  - intros b' c Hb' Hc Hh. apply in_map_iff in Hc as [x [<- Hx]].
    unfold update_entry in *. destruct (has_hash (batch_hash b) x) eqn:E.
    + simpl. f_equal. symmetry. apply Hcol; [exact Hb'|].
      apply (has_hash_same _ _ x); [exact Hh|exact E].
    + exact (Hl b' x Hb' Hx Hh).
  - intros b' c Hb' Hc Hh. apply in_app_or in Hc as [Hc|[<-|[]]].
    + exact (Hl b' c Hb' Hc Hh).
    + simpl. f_equal. symmetry. apply Hcol; [exact Hb'|].
      unfold has_hash in Hh. simpl in Hh. apply String.eqb_eq in Hh. symmetry. exact Hh.
Qed.

Ltac step_goal :=
  cbn -[track set generateHash get]; try (unfold bind at 1);
  first
    [ match goal with
      | |- context [track ?a ?b ?c ?d ?e ?f ?g ?h ?ww] =>
          let u := fresh "u" in let Eu := fresh "Eu" in
          destruct (track_effect a b c d e f g h ww) as [u Eu]; rewrite Eu
      end
    | rewrite set_run ].

Lemma embeddings_batch_run (e : string -> json) (bs : list (list string)) (b : list string)
    (videoId userId : option string) (w : World) :
  In b bs ->
  (exists r, embeddings_create b = Ok r /\ emb_data r = map e b) ->
  (forall b', In b' bs -> batch_hash b' = batch_hash b -> map e b' = map e b) ->
  cache_holds e bs (aICache w) ->
  exists w' evs,
    embeddings_batch b videoId userId w = (Ok (map e b), w') /\
    trace w' = (trace w ++ evs)%list /\ batch_events b evs /\ cache_holds e bs (aICache w').
Proof.
  intros Hb [r [Hr Hd]] Hcol Hl.
  unfold embeddings_batch. unfold bind at 1.
  destruct (get_cases "embeddings" (embeddings_batchKey b) embeddings_model w)
    as [[Hf Hg] | [[c [x [Hf [He [Hlt Hg]]]]] | [c [Hf Hg]]]]; rewrite Hg.
  - cbn -[track set generateHash]. rewrite Hr. repeat step_goal.
    cbn -[generateHash]. rewrite Hd.
    eexists. exists [EvLookup (batch_hash b); EvProvider "embeddings"; EvRecord false;
                     EvStore (batch_hash b)].
    split; [reflexivity|]. split; [simpl; rewrite <- !app_assoc; reflexivity|].
    split; [right; left; reflexivity|].
    simpl. apply (cache_holds_store e bs b); assumption.
  - cbn -[track set generateHash]. rewrite Hr. repeat step_goal.
    cbn -[generateHash]. rewrite Hd.
    eexists. exists [EvLookup (batch_hash b); EvDelete (batch_hash b); EvProvider "embeddings";
                     EvRecord false; EvStore (batch_hash b)].
    split; [reflexivity|]. split; [simpl; rewrite <- !app_assoc; reflexivity|].
    split; [right; right; reflexivity|].
    simpl. apply (cache_holds_store e bs b); [assumption|].
    apply cache_holds_filter. exact Hl.
  - assert (Hresp : c_response c = JArr (map e b)).
    { apply (Hl b c Hb (findUnique_In _ _ _ Hf) (findUnique_has_hash _ _ _ Hf)). }
    rewrite Hresp. repeat step_goal. cbn -[generateHash].
    eexists. exists [EvLookup (batch_hash b); EvHit (batch_hash b); EvRecord true].
    split; [reflexivity|]. split; [simpl; rewrite <- !app_assoc; reflexivity|].
    split; [left; reflexivity|].
    simpl. apply cache_holds_increment. exact Hl.
Qed.

Lemma embeddings_loop_run (e : string -> json) (bs : list (list string))
    (videoId userId : option string) :
  (forall b, In b bs -> exists r, embeddings_create b = Ok r /\ emb_data r = map e b) ->
  (forall b1 b2, In b1 bs -> In b2 bs -> batch_hash b1 = batch_hash b2 -> map e b1 = map e b2) ->
  forall bs0 acc w,
    incl bs0 bs ->
    cache_holds e bs (aICache w) ->
    exists w' evss,
      embeddings_loop bs0 videoId userId acc w
        = (Ok (acc ++ concat (map (map e) bs0))%list, w') /\
      trace w' = (trace w ++ concat evss)%list /\ Forall2 batch_events bs0 evss.
Proof.
  intros Hprov Hcol bs0. induction bs0 as [|b bs0 IH]; intros acc w Hincl Hl.
  - exists w, []. simpl. rewrite !app_nil_r. split; [reflexivity|]. split; [reflexivity|].
    constructor.
  - assert (Hb : In b bs) by (apply Hincl; left; reflexivity).
    destruct (embeddings_batch_run e bs b videoId userId w Hb (Hprov b Hb)
                (fun b' Hb' => Hcol b' b Hb' Hb) Hl) as [w1 [evs1 [E1 [T1 [B1 H1]]]]].
    destruct (IH (acc ++ map e b)%list w1 (fun x Hx => Hincl x (in_cons _ _ _ Hx)) H1)
      as [w2 [evss [E2 [T2 F2]]]].
    exists w2, (evs1 :: evss). simpl. unfold bind. rewrite E1, E2.
    rewrite <- app_assoc. split; [reflexivity|]. split.
    + rewrite T2, T1, app_assoc. reflexivity.
    + constructor; assumption.
Qed.

End EmbeddingRuns.

Section EmbeddingsClaim.
Context {RT : Runtime}.
Import AICacheService APIUsageTracker AIServicesCached.

Lemma batches_concat (texts : list string) : concat (batches texts) = texts.
Proof.
  unfold batches. rewrite batch_starts_concat; [reflexivity|unfold batchSize; lia].
Qed.

(** C7: [generateEmbeddingsCached] partitions the texts into consecutive
    batches of [batchSize] (100) texts, the last one possibly shorter (250
    texts give batches of 100, 100 and 50). When the provider answers every
    batch with the embeddings [e] of its texts, the cache entries under the
    batches' fingerprints hold those embeddings, and batches that share a
    fingerprint share their embeddings, the call succeeds and returns the
    embeddings of the texts in input order; its events are, batch after batch
    in order, a lookup of that batch's own fingerprint followed either by a
    hit and its usage record, or by (an expiry delete and) exactly one
    provider call, its usage record and the store. *)
Theorem generateEmbeddingsCached_batches (texts : list string) (videoId userId : option string)
    (w : World) (e : string -> json) :
  (forall b, In b (batches texts) -> exists r, embeddings_create b = Ok r /\ emb_data r = map e b) ->
  (forall b1 b2, In b1 (batches texts) -> In b2 (batches texts) ->
                 batch_hash b1 = batch_hash b2 -> map e b1 = map e b2) ->
  cache_holds e (batches texts) (aICache w) ->
  concat (batches texts) = texts /\
  (forall b, In b (batches texts) -> (0 < length b <= batchSize)%nat) /\
  (forall bs1 b bs2, batches texts = (bs1 ++ b :: bs2)%list -> bs2 <> [] ->
                     length b = batchSize) /\
  (length texts = 250%nat -> map (@length string) (batches texts) = [100; 100; 50]%nat) /\
  exists w' evss,
    generateEmbeddingsCached texts videoId userId w = (Ok (map e texts), w') /\
    trace w' = (trace w ++ concat evss)%list /\
    Forall2 batch_events (batches texts) evss.
Proof.
  intros Hprov Hcol Hl.
  destruct (batch_starts_sizes texts (length texts) 0) as [Hsz Hfull].
  split; [apply batches_concat|].
  split; [exact Hsz|].
  split; [exact Hfull|].
  split.
  - intros H250. unfold batches. rewrite H250.
    change (batch_starts 250 0 250) with [0; 100; 200]%nat.
    cbn [map]. rewrite !length_slice, H250. reflexivity.
  - destruct (embeddings_loop_run e (batches texts) videoId userId Hprov Hcol
                (batches texts) [] w (incl_refl _) Hl) as [w' [evss [E [T F]]]].
    exists w', evss. unfold generateEmbeddingsCached, try_catch. rewrite E.
    split; [|split; assumption].
    simpl. rewrite <- concat_map, batches_concat. reflexivity.
Qed.

End EmbeddingsClaim.

Lemma generateEmbeddingsCached_batches_witness :
  let texts := Demo.texts250 in
  let e := fun t => JArr [JStr t] in
  (concat (AIServicesCached.batches texts) = texts /\
   (forall b, In b (AIServicesCached.batches texts) ->
              (0 < length b <= AIServicesCached.batchSize)%nat) /\
   (forall bs1 b bs2, AIServicesCached.batches texts = (bs1 ++ b :: bs2)%list -> bs2 <> [] ->
                      length b = AIServicesCached.batchSize) /\
   (length texts = 250%nat ->
    map (@length string) (AIServicesCached.batches texts) = [100; 100; 50]%nat) /\
   exists w' evss,
     @AIServicesCached.generateEmbeddingsCached Demo.emb_rt texts None None Demo.batch2_world
       = (Ok (map e texts), w') /\
     trace w' = (trace Demo.batch2_world ++ concat evss)%list /\
     Forall2 (@batch_events Demo.emb_rt) (AIServicesCached.batches texts) evss) /\
  length (filter (fun ev => match ev with EvProvider _ => true | _ => false end)
            (trace (snd (@AIServicesCached.generateEmbeddingsCached Demo.emb_rt texts None None
                           Demo.batch2_world)))) = 2%nat.
Proof.
  intros texts e. split; [|vm_compute; reflexivity].
  apply (@generateEmbeddingsCached_batches Demo.emb_rt texts None None Demo.batch2_world e).
  - intros b _. eexists. split; reflexivity.
  - intros b1 b2 H1 H2 Hh. vm_compute in H1, H2.
    destruct H1 as [<-|[<-|[<-|[]]]]; destruct H2 as [<-|[<-|[<-|[]]]];
      first [reflexivity | vm_compute in Hh; discriminate].
  - intros b c Hb Hc Hh. destruct Hc as [<-|[]]. vm_compute in Hb.
    destruct Hb as [<-|[<-|[<-|[]]]];
      first [vm_compute; reflexivity | vm_compute in Hh; discriminate].
Defined.

(** ** Further properties of the cache store *)

Section CacheMaintenance.
Context {RT : Runtime}.
Import AICacheService.

Lemma get_value_some (type content model : string) (w : World) (c : AICache) :
  findUnique (generateHash content model) (aICache w) = Some c ->
  fst (get type content model w) =
    Ok (match c_expiresAt c with
        | Some e => if (e <? clock w)%Z then JNull else c_response c
        | None => c_response c
        end).
Proof.
  intros Hf. unfold get, bind, emit, read_cache, now, delete, modify_cache, ret; simpl.
  rewrite Hf. destruct (c_expiresAt c) as [e|]; simpl; [|reflexivity].
  destruct (e <? clock w)%Z; reflexivity.
Qed.

Lemma get_value_none (type content model : string) (w : World) :
  findUnique (generateHash content model) (aICache w) = None ->
  fst (get type content model w) = Ok JNull.
Proof.
  intros Hf. unfold get, bind, emit, read_cache, now, ret; simpl. rewrite Hf. reflexivity.
Qed.


Lemma findUnique_none_forall (h : string) (l : list AICache) :
  findUnique h l = None -> forall c, In c l -> has_hash h c = false.
Proof.
  induction l as [|x l IH]; simpl; [intros _ c []|].
  unfold has_hash at 1. destruct (String.eqb (c_inputHash x) h) eqn:E; [discriminate|].
  intros Hn c [<-|Hc]; [exact E|exact (IH Hn c Hc)].
Qed.

Lemma findUnique_absent (h : string) (l : list AICache) :
  ~ In h (map c_inputHash l) -> findUnique h l = None.
Proof.
  induction l as [|x l IH]; simpl; [reflexivity|].
  intros Hn. destruct (String.eqb_spec (c_inputHash x) h); [tauto|].
  apply IH. tauto.
Qed.

Lemma findUnique_filter_none (h : string) (p : AICache -> bool) (l : list AICache) :
  findUnique h l = None -> findUnique h (filter p l) = None.
Proof.
  induction l as [|x l IH]; simpl; [reflexivity|].
  destruct (String.eqb (c_inputHash x) h) eqn:E; [discriminate|].
  intros Hn. destruct (p x); simpl; [rewrite E|]; exact (IH Hn).
Qed.

Lemma findUnique_filter_unique (h : string) (p : AICache -> bool) (l : list AICache) (c : AICache) :
  unique_index l -> findUnique h l = Some c ->
  findUnique h (filter p l) = if p c then Some c else None.
Proof.
  unfold unique_index. induction l as [|x l IH]; simpl; [discriminate|].
  intros Hnd. inversion Hnd as [|? ? Hnin Hnd']; subst.
  destruct (String.eqb (c_inputHash x) h) eqn:E.
  - intros [= <-]. apply String.eqb_eq in E.
    assert (Hl : findUnique h (filter p l) = None).
    { apply findUnique_absent. intros Hin. apply Hnin.
      rewrite E. clear -Hin. induction l as [|y l IHl]; simpl in *; [exact Hin|].
      destruct (p y); simpl in Hin; [destruct Hin; [left; assumption|right; auto]|right; auto]. }
    destruct (p x) eqn:Ep; simpl; [rewrite E, String.eqb_refl; reflexivity|exact Hl].
  - intros Hf. destruct (p x); simpl; [rewrite E|]; exact (IH Hnd' Hf).
Qed.

Lemma map_hash_filter (p : AICache -> bool) (l : list AICache) :
  unique_index l -> unique_index (filter p l).
Proof.
  unfold unique_index. induction l as [|x l IH]; simpl; [auto|].
  intros Hnd. inversion Hnd as [|? ? Hnin Hnd']; subst.
  destruct (p x); simpl; [|exact (IH Hnd')].
  constructor; [|exact (IH Hnd')].
  intros Hin. apply Hnin. clear -Hin. induction l as [|y l IHl]; simpl in *; [exact Hin|].
  destruct (p y); simpl in Hin; [destruct Hin; [left; assumption|right; auto]|right; auto].
Qed.

Lemma map_hash_map (f : AICache -> AICache) (l : list AICache) :
  (forall x, c_inputHash (f x) = c_inputHash x) ->
  map c_inputHash (map f l) = map c_inputHash l.
Proof. intros Hf. rewrite map_map. apply map_ext. exact Hf. Qed.

Lemma update_entry_inputHash h r i o e t x : c_inputHash (update_entry h r i o e t x) = c_inputHash x.
Proof. unfold update_entry. destruct (has_hash h x); reflexivity. Qed.

Lemma increment_hit_inputHash h x : c_inputHash (increment_hit h x) = c_inputHash x.
Proof. unfold increment_hit. destruct (has_hash h x); reflexivity. Qed.

Lemma existsb_hash_false (h : string) (l : list AICache) :
  existsb (has_hash h) l = false -> ~ In h (map c_inputHash l).
Proof.
  induction l as [|x l IH]; simpl; [tauto|].
  unfold has_hash at 1. destruct (String.eqb_spec (c_inputHash x) h); [discriminate|].
  simpl. intros Hl [Heq|Hin]; [congruence|exact (IH Hl Hin)].
Qed.

Lemma clearExpired_run (w : World) :
  clearExpired w =
    (Ok (length (filter (expired_at (clock w)) (aICache w))),
     mkWorld (filter (fun c => negb (expired_at (clock w) c)) (aICache w))
             (aPIUsage w) (trace w) (clock w)).
Proof. reflexivity. Qed.

Lemma clearByType_run (type : string) (w : World) :
  clearByType type w =
    (Ok (length (filter (fun c => String.eqb (c_type c) type) (aICache w))),
     mkWorld (filter (fun c => negb (String.eqb (c_type c) type)) (aICache w))
             (aPIUsage w) (trace w) (clock w)).
Proof. reflexivity. Qed.

Lemma length_filter_split {A} (p : A -> bool) (l : list A) :
  (length (filter p l) + length (filter (fun x => negb (p x)) l))%nat = length l.
Proof.
  induction l as [|x l IH]; simpl; [reflexivity|]. destruct (p x); simpl; lia.
Qed.

Lemma filter_filter_and {A} (p q : A -> bool) (l : list A) :
  filter p (filter q l) = filter (fun x => q x && p x) l.
Proof.
  induction l as [|x l IH]; simpl; [reflexivity|].
  destruct (q x); simpl; [destruct (p x); simpl|]; rewrite IH; reflexivity.
Qed.


(** The cache operations keep the unique index on [inputHash]: [set]
    updates in place or inserts a fingerprint that is absent, [get] only
    deletes or counts hits, and the [deleteMany] operations only remove. *)
Theorem cache_ops_keep_unique_index (w : World) :
  unique_index (aICache w) ->
  (forall ty content model resp d i o,
      unique_index (aICache (snd (set ty content model resp d i o w)))) /\
  (forall ty content model, unique_index (aICache (snd (get ty content model w)))) /\
  unique_index (aICache (snd (clearExpired w))) /\
  (forall type, unique_index (aICache (snd (clearByType type w)))) /\
  unique_index (aICache (snd (clearAll w))).
Proof.
  intros Hu. split; [|split; [|split; [|split]]].
  - intros ty content model resp d i o.
    destruct (set_cache_table ty content model resp d i o w) as [Hc _]. cbv zeta in Hc.
    rewrite Hc. destruct (existsb _ _) eqn:E.
    + unfold unique_index. rewrite map_hash_map; [exact Hu|apply update_entry_inputHash].
    + unfold unique_index. rewrite map_app. simpl. apply NoDup_app; [exact Hu|repeat constructor; simpl; tauto|].
      intros a Ha [<-|[]]. exact (existsb_hash_false _ _ E Ha).
  - intros ty content model.
    destruct (get_cases ty content model w)
      as [[Hf Hg] | [[c [e [Hf [He [Hlt Hg]]]]] | [c [Hf Hg]]]]; rewrite Hg; simpl.
    + exact Hu.
    + apply map_hash_filter. exact Hu.
    + unfold unique_index. rewrite map_hash_map; [exact Hu|apply increment_hit_inputHash].
  - rewrite clearExpired_run. apply map_hash_filter. exact Hu.
  - intros type. rewrite clearByType_run. apply map_hash_filter. exact Hu.
  - constructor.
Qed.

(** [clearExpired] removes exactly the entries whose expiry has passed and
    returns how many it removed; with the unique index, a [get] at the same
    time answers as it did before the clearing. *)
Theorem clearExpired_invisible_to_get (w : World) :
  unique_index (aICache w) ->
  let '(r, w') := clearExpired w in
  r = Ok (length (aICache w) - length (aICache w'))%nat /\
  (forall c, In c (aICache w') <-> In c (aICache w) /\ expired_at (clock w) c = false) /\
  (forall type content model, fst (get type content model w') = fst (get type content model w)).
Proof.
  intros Hu. rewrite clearExpired_run. split; [|split].
  - f_equal. simpl. pose proof (length_filter_split (expired_at (clock w)) (aICache w)). lia.
  - intros c. simpl. rewrite filter_In. destruct (expired_at (clock w) c); simpl; intuition discriminate.
  - intros type content model.
    destruct (findUnique (generateHash content model) (aICache w)) as [c|] eqn:Hf.
    + rewrite (get_value_some type content model w c Hf).
      pose proof (findUnique_filter_unique _ (fun c => negb (expired_at (clock w) c)) _ c Hu Hf) as Hf'.
      cbv beta in Hf'. destruct (expired_at (clock w) c) eqn:Hx; simpl in Hf'.
      * rewrite (get_value_none type content model (mkWorld _ (aPIUsage w) (trace w) (clock w)) Hf').
        unfold expired_at in Hx. destruct (c_expiresAt c) as [e|]; [|discriminate].
        rewrite Hx. reflexivity.
      * rewrite (get_value_some type content model (mkWorld _ (aPIUsage w) (trace w) (clock w)) c Hf').
        reflexivity.
    + rewrite (get_value_none type content model w Hf).
      apply get_value_none. simpl. apply findUnique_filter_none. exact Hf.
Qed.

(** [clearByType(type)] returns the number of entries of that kind, after
    which [getCountByType(type)] is [0] and the count of every other kind is
    unchanged. *)
Theorem clearByType_counts (type : string) (w : World) :
  fst (clearByType type w) = Ok (getCountByType type w) /\
  getCountByType type (snd (clearByType type w)) = 0%nat /\
  (forall type', type' <> type ->
     getCountByType type' (snd (clearByType type w)) = getCountByType type' w).
Proof.
  rewrite clearByType_run. unfold getCountByType. simpl. split; [reflexivity|split].
  - rewrite filter_filter_and. induction (aICache w) as [|x l IH]; simpl; [reflexivity|].
    destruct (String.eqb (c_type x) type); simpl; exact IH.
  - intros type' Hne. rewrite filter_filter_and. f_equal. apply filter_ext.
    intros c. destruct (String.eqb_spec (c_type c) type'); destruct (String.eqb_spec (c_type c) type);
      simpl; congruence.
Qed.

End CacheMaintenance.

Lemma cache_ops_keep_unique_index_witness :
  unique_index (aICache Demo.expired_world) /\
  unique_index (aICache (snd (@AICacheService.set Demo.demo_rt "highlights" "d" "m" (JStr "v")
                                None None None Demo.expired_world))).
Proof.
  assert (Hu : unique_index (aICache Demo.expired_world)) by (repeat constructor; simpl; tauto).
  split; [exact Hu|].
  apply (proj1 (@cache_ops_keep_unique_index Demo.demo_rt Demo.expired_world Hu)).
Defined.

Lemma clearExpired_invisible_to_get_witness :
  unique_index (aICache Demo.expired_world) /\
  fst (@AICacheService.get Demo.demo_rt "highlights" "c" "m"
         (snd (AICacheService.clearExpired Demo.expired_world))) =
  fst (@AICacheService.get Demo.demo_rt "highlights" "c" "m" Demo.expired_world).
Proof.
  assert (Hu : unique_index (aICache Demo.expired_world)) by (repeat constructor; simpl; tauto).
  split; [exact Hu|].
  generalize (@clearExpired_invisible_to_get Demo.demo_rt Demo.expired_world Hu).
  destruct (AICacheService.clearExpired Demo.expired_world) as [r w'].
  intros [_ [_ H3]]. apply H3.
Defined.

(** ** Grouping, counting and summing *)

Section DistinctScan.
Variable K : Type.
Variable mem : K -> list K -> bool.
Hypothesis mem_spec : forall k s, mem k s = true <-> In k s.

Lemma mem_false k s : mem k s = false <-> ~ In k s.
Proof.
  split.
  - intros E Hin. apply mem_spec in Hin. congruence.
  - intros Hn. destruct (mem k s) eqn:E; [|reflexivity]. exfalso. apply Hn, mem_spec, E.
Qed.

Lemma distinct_by_In (seen l : list K) (x : K) :
  In x (distinct_by mem seen l) -> In x l /\ ~ In x seen.
Proof.
  revert seen. induction l as [|k l IH]; intros seen; simpl; [tauto|].
  destruct (mem k seen) eqn:E.
  - intros H. destruct (IH seen H). tauto.
  - intros [<-|H].
    + split; [left; reflexivity|]. apply mem_false, E.
    + destruct (IH (k :: seen) H) as [H1 H2]. simpl in H2. tauto.
Qed.

Lemma distinct_by_NoDup (seen l : list K) : NoDup (distinct_by mem seen l).
Proof.
  revert seen. induction l as [|k l IH]; intros seen; simpl; [constructor|].
  destruct (mem k seen); [apply IH|].
  constructor; [|apply IH]. intros H. apply distinct_by_In in H. simpl in H. tauto.
Qed.

Lemma distinct_by_complete (seen l : list K) (x : K) :
  In x l -> ~ In x seen -> In x (distinct_by mem seen l).
Proof.
  revert seen. induction l as [|k l IH]; intros seen; simpl; [tauto|].
  intros Hx Hs. destruct (mem k seen) eqn:E.
  - destruct Hx as [<-|Hx].
    + apply mem_spec in E. contradiction.
    + apply IH; assumption.
  - destruct Hx as [<-|Hx]; [left; reflexivity|].
    destruct (mem x [k]) eqn:Ek.
    + apply mem_spec in Ek. destruct Ek as [<-|[]]. left; reflexivity.
    + right. apply IH; [assumption|]. simpl. intros [Hkx|H]; [|contradiction].
      apply (proj1 (mem_false x [k]) Ek). left; exact Hkx.
Qed.

End DistinctScan.

Lemma sumQ_acc {B} (f : B -> Q) (l : list B) (a : Q) :
  fold_left (fun acc x => acc + f x) l a == a + AICacheService.sumQ f l.
Proof.
  unfold AICacheService.sumQ. revert a. induction l as [|x l IH]; intros a; simpl; [ring|].
  rewrite (IH (a + f x)), (IH (0 + f x)). ring.
Qed.

Lemma sumQ_cons {B} (f : B -> Q) (x : B) (l : list B) :
  AICacheService.sumQ f (x :: l) == f x + AICacheService.sumQ f l.
Proof. unfold AICacheService.sumQ at 1. simpl. rewrite sumQ_acc. ring. Qed.

Lemma sumQ_app {B} (f : B -> Q) (l1 l2 : list B) :
  AICacheService.sumQ f (l1 ++ l2) == AICacheService.sumQ f l1 + AICacheService.sumQ f l2.
Proof.
  induction l1 as [|x l1 IH]; simpl.
  - unfold AICacheService.sumQ at 2. simpl. ring.
  - rewrite !sumQ_cons, IH. ring.
Qed.

Lemma sumQ_map {B C} (g : C -> Q) (f : B -> C) (l : list B) :
  AICacheService.sumQ g (map f l) = AICacheService.sumQ (fun x => g (f x)) l.
Proof. unfold AICacheService.sumQ. generalize 0. induction l as [|x l IH]; intros a; simpl; auto. Qed.

Lemma sumQ_ext {B} (f g : B -> Q) (l : list B) :
  (forall x, In x l -> f x == g x) -> AICacheService.sumQ f l == AICacheService.sumQ g l.
Proof.
  induction l as [|x l IH]; intros H; [reflexivity|]. rewrite !sumQ_cons.
  rewrite (H x (or_introl eq_refl)), IH; [reflexivity|]. intros y Hy. apply H. right; exact Hy.
Qed.

Lemma filter_all {B} (p : B -> bool) (l : list B) :
  (forall x, In x l -> p x = true) -> filter p l = l.
Proof.
  induction l as [|x l IH]; intros H; simpl; [reflexivity|].
  rewrite (H x (or_introl eq_refl)), IH; [reflexivity|]. intros y Hy. apply H. right; exact Hy.
Qed.

Section GroupSums.
Import AICacheService.
Variables (A K : Type) (key : A -> K) (grp : A -> K -> bool) (mem : K -> list K -> bool).
Hypothesis grp_spec : forall x k, grp x k = true <-> key x = k.
Hypothesis mem_spec : forall k s, mem k s = true <-> In k s.

Lemma length_filter_or (p q r : A -> bool) (l : list A) :
  (forall x, r x = p x || q x) -> (forall x, p x = true -> q x = false) ->
  length (filter r l) = (length (filter p l) + length (filter q l))%nat.
Proof.
  intros Hr Hpq. induction l as [|x l IH]; simpl; [reflexivity|].
  rewrite Hr. destruct (p x) eqn:Ep; simpl.
  - rewrite (Hpq x Ep). simpl. rewrite IH. reflexivity.
  - destruct (q x); simpl; rewrite IH; lia.
Qed.

Lemma sumQ_filter_or (f : A -> Q) (p q r : A -> bool) (l : list A) :
  (forall x, r x = p x || q x) -> (forall x, p x = true -> q x = false) ->
  sumQ f (filter r l) == sumQ f (filter p l) + sumQ f (filter q l).
Proof.
  intros Hr Hpq. induction l as [|x l IH]; simpl; [reflexivity|].
  rewrite Hr. destruct (p x) eqn:Ep; simpl.
  - rewrite (Hpq x Ep). simpl. rewrite !sumQ_cons, IH. ring.
  - destruct (q x); simpl; rewrite ?sumQ_cons, IH; ring.
Qed.

Lemma mem_cons_or (x : A) (k : K) (ks : list K) :
  mem (key x) (k :: ks) = grp x k || mem (key x) ks.
Proof.
  apply Bool.eq_iff_eq_true. rewrite Bool.orb_true_iff, !mem_spec, grp_spec. simpl.
  split; intros [H|H]; auto.
Qed.

Lemma grp_excl (x : A) (k : K) (ks : list K) :
  ~ In k ks -> grp x k = true -> mem (key x) ks = false.
Proof.
  intros Hn Hg. apply grp_spec in Hg. subst k.
  destruct (mem (key x) ks) eqn:E; [|reflexivity]. apply mem_spec in E. contradiction.
Qed.

Lemma mem_nil_false (x : A) : mem (key x) [] = false.
Proof. destruct (mem (key x) []) eqn:E; [|reflexivity]. apply mem_spec in E. destruct E. Qed.

Lemma groups_length (ks : list K) (l : list A) :
  NoDup ks ->
  list_sum (map (fun k => length (filter (fun x => grp x k) l)) ks) =
  length (filter (fun x => mem (key x) ks) l).
Proof.
  induction ks as [|k ks IH]; intros Hnd; simpl.
  - induction l as [|x l IHl]; simpl; [reflexivity|]. rewrite mem_nil_false. exact IHl.
  - apply NoDup_cons_iff in Hnd. destruct Hnd as [Hk Hnd].
    rewrite (length_filter_or (fun x => grp x k) (fun x => mem (key x) ks)
               (fun x => mem (key x) (k :: ks)) l).
    + rewrite IH by exact Hnd. reflexivity.
    + intros x. apply mem_cons_or.
    + intros x. apply grp_excl. exact Hk.
Qed.

Lemma groups_sumQ (f : A -> Q) (ks : list K) (l : list A) :
  NoDup ks ->
  sumQ (fun k => sumQ f (filter (fun x => grp x k) l)) ks ==
  sumQ f (filter (fun x => mem (key x) ks) l).
Proof.
  induction ks as [|k ks IH]; intros Hnd.
  - unfold sumQ at 1. simpl.
    induction l as [|x l IHl]; simpl; [reflexivity|]. rewrite mem_nil_false. exact IHl.
  - apply NoDup_cons_iff in Hnd. destruct Hnd as [Hk Hnd].
    rewrite sumQ_cons. rewrite IH by exact Hnd.
    rewrite (sumQ_filter_or f (fun x => grp x k) (fun x => mem (key x) ks)
               (fun x => mem (key x) (k :: ks)) l).
    + reflexivity.
    + intros x. apply mem_cons_or.
    + intros x. apply grp_excl. exact Hk.
Qed.

Lemma mem_distinct_all (l : list A) :
  filter (fun x => mem (key x) (distinct_by mem [] (map key l))) l = l.
Proof.
  apply filter_all. intros x Hx. apply mem_spec.
  apply (distinct_by_complete K mem mem_spec); [apply in_map; exact Hx|simpl; tauto].
Qed.

End GroupSums.

Lemma str_mem_spec (k : string) (s : list string) : existsb (String.eqb k) s = true <-> In k s.
Proof.
  rewrite existsb_exists. split.
  - intros [k' [Hin E]]. apply String.eqb_eq in E. subst k'. exact Hin.
  - intros Hin. exists k. split; [exact Hin|apply String.eqb_refl].
Qed.

Lemma distinct_is_by (seen l : list string) :
  AICacheService.distinct seen l = distinct_by (fun k s => existsb (String.eqb k) s) seen l.
Proof.
  revert seen. induction l as [|k l IH]; intros seen; simpl; [reflexivity|].
  destruct (existsb (String.eqb k) seen); rewrite ?IH; reflexivity.
Qed.

Lemma distinct_NoDup (l : list string) : NoDup (AICacheService.distinct [] l).
Proof. rewrite distinct_is_by. apply distinct_by_NoDup. apply str_mem_spec. Qed.

Lemma distinct_In (l : list string) (k : string) : In k (AICacheService.distinct [] l) <-> In k l.
Proof.
  rewrite distinct_is_by. split.
  - intros H. apply (distinct_by_In _ _ str_mem_spec) in H. tauto.
  - intros H. apply (distinct_by_complete _ _ str_mem_spec); [exact H|simpl; tauto].
Qed.

Lemma str_grp_spec {B} (key : B -> string) (x : B) (k : string) :
  String.eqb (key x) k = true <-> key x = k.
Proof. apply String.eqb_eq. Qed.

(** The per-key counts of a [groupBy] over [l] add up to [length l]. *)
Lemma group_counts_total {B} (key : B -> string) (l : list B) :
  list_sum (map (fun k => length (filter (fun x => String.eqb (key x) k) l))
                (AICacheService.distinct [] (map key l))) = length l.
Proof.
  rewrite (groups_length B string key (fun x k => String.eqb (key x) k)
             (fun k s => existsb (String.eqb k) s) (str_grp_spec key) str_mem_spec)
    by apply distinct_NoDup.
  rewrite distinct_is_by.
  rewrite (mem_distinct_all B string key (fun k s => existsb (String.eqb k) s) str_mem_spec).
  reflexivity.
Qed.

(** The per-key sums of a [groupBy] over [l] add up to the sum over [l]. *)
Lemma group_sums_total {B} (key : B -> string) (f : B -> Q) (l : list B) :
  AICacheService.sumQ (fun k => AICacheService.sumQ f (filter (fun x => String.eqb (key x) k) l))
    (AICacheService.distinct [] (map key l)) == AICacheService.sumQ f l.
Proof.
  rewrite (groups_sumQ B string key (fun x k => String.eqb (key x) k)
             (fun k s => existsb (String.eqb k) s) (str_grp_spec key) str_mem_spec)
    by apply distinct_NoDup.
  rewrite distinct_is_by.
  rewrite (mem_distinct_all B string key (fun k s => existsb (String.eqb k) s) str_mem_spec).
  reflexivity.
Qed.

Lemma group_count_pos {B} (key : B -> string) (l : list B) (k : string) :
  In k (AICacheService.distinct [] (map key l)) ->
  (0 < length (filter (fun x => String.eqb (key x) k) l))%nat.
Proof.
  intros H. apply distinct_In, in_map_iff in H. destruct H as [x [<- Hx]].
  destruct (filter (fun y => String.eqb (key y) (key x)) l) eqn:E; simpl; [|lia].
  assert (Hin : In x (filter (fun y => String.eqb (key y) (key x)) l)).
  { apply filter_In. split; [exact Hx|apply String.eqb_refl]. }
  rewrite E in Hin. destruct Hin.
Qed.

Section StatsSums.
Import AICacheService APIUsageTracker.

(** [getStats().byType] partitions the cache: one entry per kind present,
    each with the positive count [getCountByType] gives for that kind, and
    the counts add up to [totalEntries]. *)
Theorem getStats_byType_partition (w : World) :
  list_sum (map snd (cs_byType (getStats w))) = cs_total (getStats w) /\
  NoDup (map fst (cs_byType (getStats w))) /\
  (forall k n, In (k, n) (cs_byType (getStats w)) -> (0 < n)%nat /\ n = getCountByType k w).
Proof.
  unfold getStats. cbn [cs_byType cs_total]. rewrite !map_map. cbn [fst snd].
  split; [|split].
  - apply group_counts_total.
  - rewrite map_id. apply distinct_NoDup.
  - intros k n H. apply in_map_iff in H. destruct H as [k' [E Hk]]. injection E as <- <-.
    split; [apply group_count_pos; exact Hk|reflexivity].
Qed.

Lemma group_by_shape (key : APIUsage -> string) (l : list APIUsage) :
  list_sum (map (fun '(_, n, _) => n) (group_by key l)) = length l /\
  sumQ (fun '(_, _, c) => c) (group_by key l) == sumQ u_estimatedCost l /\
  NoDup (map (fun '(k, _, _) => k) (group_by key l)).
Proof.
  unfold group_by. rewrite !map_map, sumQ_map. split; [|split].
  - apply group_counts_total.
  - apply group_sums_total.
  - rewrite map_id. apply distinct_NoDup.
Qed.

(** The groups of [getUsageStats] account for every request: in [byType]
    and in [byModel] the keys are distinct, the request counts add up to
    [totalRequests] and the costs to [totalCost]. *)
Theorem getUsageStats_groups_total (startDate endDate : option Z) (userId : option string)
    (w : World) :
  let s := getUsageStats startDate endDate userId w in
  list_sum (map (fun '(_, n, _) => n) (us_byType s)) = us_totalRequests s /\
  sumQ (fun '(_, _, c) => c) (us_byType s) == us_totalCost s /\
  NoDup (map (fun '(k, _, _) => k) (us_byType s)) /\
  list_sum (map (fun '(_, n, _) => n) (us_byModel s)) = us_totalRequests s /\
  sumQ (fun '(_, _, c) => c) (us_byModel s) == us_totalCost s /\
  NoDup (map (fun '(k, _, _) => k) (us_byModel s)).
Proof.
  unfold getUsageStats. cbn zeta. cbn [us_byType us_byModel us_totalRequests us_totalCost].
  destruct (group_by_shape u_type (filter (matches startDate endDate userId) (aPIUsage w)))
    as [H1 [H2 H3]].
  destruct (group_by_shape u_model (filter (matches startDate endDate userId) (aPIUsage w)))
    as [H4 [H5 H6]].
  tauto.
Qed.

End StatsSums.

Section SavingsSum.
Import AICacheService.

Lemma sumQ_scale {B} (a : Q) (f : B -> Q) (l : list B) :
  sumQ (fun x => a * f x) l == a * sumQ f l.
Proof.
  induction l as [|x l IH].
  - unfold sumQ. simpl. ring.
  - rewrite !sumQ_cons, IH. ring.
Qed.

Lemma savings_step_total (s0 : CostSavings) (k : string) (x : Q) :
  k <> "total" -> sv_total (savings_step s0 k x) = js_add (sv_total s0) (cost_of k x).
Proof.
  intros Hk. apply String.eqb_neq in Hk. unfold savings_step. cbv zeta.
  destruct (String.eqb k "transcription"); [reflexivity|].
  destruct (String.eqb k "highlights"); [reflexivity|].
  destruct (String.eqb k "embeddings"); [reflexivity|].
  rewrite Hk. reflexivity.
Qed.

Lemma savings_fold_nan (h : string -> Q) (ks : list string) (s0 : CostSavings) :
  (forall k, In k ks -> k <> "total") -> sv_total s0 = JNaN ->
  sv_total (fold_left (fun s type => savings_step s type (h type)) ks s0) = JNaN.
Proof.
  revert s0. induction ks as [|k ks IH]; intros s0 Hk Hs; simpl; [exact Hs|].
  apply IH; [intros k' H; apply Hk; right; exact H|].
  rewrite savings_step_total by (apply Hk; left; reflexivity). rewrite Hs. reflexivity.
Qed.

Lemma savings_fold_proto (h : string -> Q) (ks : list string) (s0 : CostSavings) :
  (forall k, In k ks -> k <> "total") -> existsb is_prototype_key ks = true ->
  sv_total (fold_left (fun s type => savings_step s type (h type)) ks s0) = JNaN.
Proof.
  revert s0. induction ks as [|k ks IH]; intros s0 Hk Hp; simpl in *; [discriminate|].
  destruct (is_prototype_key k) eqn:Ep.
  - apply savings_fold_nan; [intros k' H; apply Hk; right; exact H|].
    rewrite savings_step_total by (apply Hk; left; reflexivity).
    assert (Hc : cost_of k (h k) = JNaN).
    { unfold cost_of, costPerHit. rewrite Ep.
      destruct (String.eqb_spec k "transcription"); [subst; discriminate|].
      destruct (String.eqb_spec k "highlights"); [subst; discriminate|].
      destruct (String.eqb_spec k "embeddings"); [subst; discriminate|].
      destruct (String.eqb_spec k "summary"); [subst; discriminate|]. reflexivity. }
    rewrite Hc. destruct (sv_total s0); reflexivity.
  - apply IH; [intros k' H; apply Hk; right; exact H|exact Hp].
Qed.

Lemma cost_of_fin (k : string) (x : Q) :
  is_prototype_key k = false ->
  cost_of k x = JFin (match costPerHit k with Some p => p | None => 0 end * x).
Proof.
  intros Ep. unfold cost_of. destruct (costPerHit k) eqn:E; [reflexivity|].
  unfold costPerHit in E. rewrite Ep in E.
  repeat (destruct (String.eqb _ _) in E; [discriminate|]). discriminate.
Qed.

Lemma savings_fold_fin (h : string -> Q) (ks : list string) (s0 : CostSavings) (q0 : Q) :
  (forall k, In k ks -> k <> "total") -> existsb is_prototype_key ks = false ->
  sv_total s0 = JFin q0 ->
  exists q, sv_total (fold_left (fun s type => savings_step s type (h type)) ks s0) = JFin q /\
    q == q0 + sumQ (fun k => match costPerHit k with Some p => p | None => 0 end * h k) ks.
Proof.
  revert s0 q0. induction ks as [|k ks IH]; intros s0 q0 Hk Hp Hs; simpl in *.
  - exists q0. split; [exact Hs|]. unfold sumQ. simpl. ring.
  - apply orb_false_iff in Hp. destruct Hp as [Hp1 Hp2].
    destruct (IH (savings_step s0 k (h k))
                 (q0 + match costPerHit k with Some p => p | None => 0 end * h k))
      as [q [E Hq]].
    + intros k' H. apply Hk. right. exact H.
    + exact Hp2.
    + rewrite savings_step_total by (apply Hk; left; reflexivity).
      rewrite Hs, cost_of_fin by exact Hp1. reflexivity.
    + exists q. split; [exact E|]. rewrite Hq, sumQ_cons. ring.
Qed.

Lemma existsb_distinct (f : string -> bool) (l : list string) :
  existsb f (distinct [] l) = existsb f l.
Proof.
  apply eq_true_iff_eq. rewrite !existsb_exists. split.
  - intros [x [Hx Hf]]. exists x. split; [apply distinct_In; exact Hx|exact Hf].
  - intros [x [Hx Hf]]. exists x. split; [apply distinct_In; exact Hx|exact Hf].
Qed.

(** With no entry of kind ["total"], the [total] of [estimateCostSavings]
    is [NaN] as soon as an entry's kind is a key of [Object.prototype]
    (e.g. ["constructor"]); otherwise it is the sum, over the cache
    entries, of the price of a hit of the entry's kind times its
    [hitCount]. *)
Theorem estimateCostSavings_total_sum (w : World) :
  (forall c, In c (aICache w) -> c_type c <> "total") ->
  (existsb (fun c => is_prototype_key (c_type c)) (aICache w) = false ->
     exists q, sv_total (estimateCostSavings w) = JFin q /\
       q == sumQ (fun c => match costPerHit (c_type c) with Some p => p | None => 0 end
                             * inject_Z (c_hitCount c)) (aICache w)) /\
  (existsb (fun c => is_prototype_key (c_type c)) (aICache w) = true ->
     sv_total (estimateCostSavings w) = JNaN).
Proof.
  intros Hnt.
  assert (Hk : forall k, In k (distinct [] (map c_type (aICache w))) -> k <> "total").
  { intros k Hk. apply distinct_In, in_map_iff in Hk. destruct Hk as [c [<- Hc]]. apply Hnt, Hc. }
  assert (Hex : existsb is_prototype_key (distinct [] (map c_type (aICache w)))
                = existsb (fun c => is_prototype_key (c_type c)) (aICache w)).
  { rewrite existsb_distinct. generalize (aICache w). intros l.
    induction l as [|c l IH]; simpl; [reflexivity|]. rewrite IH. reflexivity. }
  unfold estimateCostSavings. split.
  - intros Hp. rewrite <- Hex in Hp.
    destruct (savings_fold_fin (hits_of_type (aICache w)) _
                (mkCostSavings (JFin 0) (JFin 0) (JFin 0) (JFin 0)) 0 Hk Hp eq_refl) as [q [E Hq]].
    exists q. split; [exact E|]. rewrite Hq, Qplus_0_l. unfold hits_of_type.
    rewrite <- (group_sums_total c_type (fun c => match costPerHit (c_type c) with
                                                  | Some p => p | None => 0 end
                                                  * inject_Z (c_hitCount c))).
    apply sumQ_ext. intros k _. rewrite <- sumQ_scale. apply sumQ_ext.
    intros c Hc. apply filter_In in Hc. destruct Hc as [_ Hc]. apply String.eqb_eq in Hc.
    rewrite Hc. reflexivity.
  - intros Hp. rewrite <- Hex in Hp. apply savings_fold_proto; assumption.
Qed.

End SavingsSum.

Lemma estimateCostSavings_total_sum_witness :
  let w := mkWorld [Demo.entry "k" 1; mkAICache "constructor" "c" JNull "gpt-4o-mini"
                                        None None None 2 0] [] [] 0 in
  (forall c, In c (aICache w) -> c_type c <> "total") /\
  (exists q, AICacheService.sv_total (AICacheService.estimateCostSavings Demo.stats_world) = JFin q
             /\ q == 2 # 1000) /\
  AICacheService.sv_total (AICacheService.estimateCostSavings w) = JNaN.
Proof.
  intros w.
  assert (H0 : forall c, In c (aICache Demo.stats_world) -> c_type c <> "total").
  { intros c [<-|[]]. simpl. discriminate. }
  assert (H : forall c, In c (aICache w) -> c_type c <> "total").
  { intros c [<-|[<-|[]]]; simpl; discriminate. }
  split; [exact H|]. split.
  - destruct (proj1 (estimateCostSavings_total_sum Demo.stats_world H0) eq_refl) as [q [E Hq]].
    exists q. split; [exact E|]. rewrite Hq. reflexivity.
  - exact (proj2 (estimateCostSavings_total_sum w H) eq_refl).
Defined.

Section ClearAll.
Import AICacheService.

(** [clearAll()] returns the number of entries it removed; afterwards
    [getStats] reports no kinds, no entries, a hit rate and savings of [0],
    and [getCacheSize] no entries and [0] MB, while the usage ledger is left
    as it was. *)
Theorem clearAll_resets (w : World) :
  let '(r, w') := clearAll w in
  r = Ok (length (aICache w)) /\ aPIUsage w' = aPIUsage w /\
  cs_byType (getStats w') = [] /\ cs_total (getStats w') = 0%nat /\
  cs_hitRate (getStats w') == 0 /\ cs_estimatedSavings (getStats w') = JFin 0 /\
  cz_entries (getCacheSize w') = 0%nat /\ cz_estimatedSizeMB (getCacheSize w') == 0.
Proof.
  unfold clearAll, bind, read_cache, modify_cache, ret. cbn.
  repeat split; try reflexivity.
  destruct (Qle_bool _ 0); [reflexivity|]. unfold Qdiv. ring.
Qed.

End ClearAll.

Section TrackThenStats.
Import AICacheService APIUsageTracker.

Lemma matches_all (r : APIUsage) : matches None None None r = true.
Proof. reflexivity. Qed.

Lemma sumQ_single {B} (f : B -> Q) (x : B) : sumQ f [x] == f x.
Proof. rewrite sumQ_cons. unfold sumQ. simpl. ring. Qed.

(** [trackUsage] always resolves.  When its token counts are [Int]s, the
    call is one more request in the unfiltered [getUsageStats]:
    [totalRequests] grows by one, [totalCost] by the [calculateCost] of the
    call, and [periodSavings] by [0.01] exactly when the call was a cache
    hit.  When a token count is not an [Int] (e.g. the [length / 4] estimate
    of an embeddings batch hit), Prisma rejects the row and the statistics
    are unchanged. *)
Theorem trackUsage_then_getUsageStats (p : TrackParams) (w : World) :
  let w' := snd (trackUsage p w) in
  let s := getUsageStats None None None w in
  let s' := getUsageStats None None None w' in
  fst (trackUsage p w) = Ok tt /\
  (int_column (tp_inputTokens p) && int_column (tp_outputTokens p) = true ->
   us_totalRequests s' = S (us_totalRequests s) /\
   us_totalCost s' ==
     us_totalCost s + calculateCost (tp_type p) (tp_model p) (tp_inputTokens p)
                        (tp_outputTokens p) (tp_inputMinutes p) /\
   us_periodSavings s' ==
     us_periodSavings s + match tp_cached p with Some true => 1 # 100 | _ => 0 end) /\
  (int_column (tp_inputTokens p) && int_column (tp_outputTokens p) = false -> s' = s).
Proof.
  unfold trackUsage, bind, now, emit, append_usage, ret. cbn zeta. cbn [fst snd aPIUsage].
  destruct (int_column (tp_inputTokens p) && int_column (tp_outputTokens p)) eqn:Ev;
    cbn [fst snd aPIUsage].
  - split; [reflexivity|]. split; [intros _|intros; discriminate].
    unfold getUsageStats. cbn [us_totalRequests us_totalCost us_periodSavings].
    rewrite !(filter_all (matches None None None)) by (intros; apply matches_all).
    cbn [aPIUsage]. split; [|split].
    + rewrite length_app. simpl. lia.
    + rewrite sumQ_app, sumQ_single. reflexivity.
    + unfold estimateCachedOriginalCost. rewrite filter_app, length_app, Nat2Z.inj_add, inject_Z_plus.
      destruct (tp_cached p) as [[|]|]; simpl; ring.
  - split; [reflexivity|]. split; [intros; discriminate|intros _]. reflexivity.
Qed.

End TrackThenStats.

Section BudgetAlerts.
Import APIUsageTracker.

Lemma pct_ge (x b c : Q) : 0 < b -> (Qle_bool c (x / b * 100) = true <-> c * b <= x * 100).
Proof.
  intros Hb. rewrite Qle_bool_iff.
  assert (Hx : x * 100 == (x / b * 100) * b) by (field; intros E; rewrite E in Hb; discriminate).
  rewrite Hx. split; intros H.
  - apply Qmult_le_r; assumption.
  - apply Qmult_le_r in H; assumption.
Qed.

Lemma pct_lt (x b c : Q) : 0 < b -> Qle_bool c (x / b * 100) = false -> x * 100 < c * b.
Proof.
  intros Hb E. apply Qnot_le_lt. intros H. apply (pct_ge x b c Hb) in H. congruence.
Qed.

(** With a positive [monthlyBudget], [checkBudgetAlert] reports a finite
    percentage and its level follows the month's spend: [exceeded] from the
    budget on, [high] from 80% of it, [medium] from 60% of it, [low] below. *)
Theorem checkBudgetAlert_levels (b : Q) (userId : option string) (startOfMonth : Z) (w : World) :
  0 < b ->
  let a := checkBudgetAlert b userId startOfMonth w in
  let spend := ba_currentSpend a in
  ba_percentUsed a = JFin (spend / b * 100) /\
  (ba_alertLevel a = Exceeded <-> b <= spend) /\
  (ba_alertLevel a = High <-> (4 # 5) * b <= spend /\ spend < b) /\
  (ba_alertLevel a = Medium <-> (3 # 5) * b <= spend /\ spend < (4 # 5) * b) /\
  (ba_alertLevel a = Low <-> spend < (3 # 5) * b).
Proof.
  intros Hb. unfold checkBudgetAlert. cbv zeta.
  set (sp := us_totalCost (getUsageStats (Some startOfMonth) (Some (clock w)) userId w)).
  unfold js_div. destruct (Qeq_bool b 0) eqn:E0.
  { apply Qeq_bool_iff in E0. rewrite E0 in Hb. discriminate. }
  cbn [js_mul100 js_ge ba_alertLevel ba_currentSpend ba_percentUsed].
  split; [reflexivity|].
  destruct (Qle_bool 100 (sp / b * 100)) eqn:E1;
    [apply (pct_ge sp b 100 Hb) in E1|apply (pct_lt sp b 100 Hb) in E1];
  [|destruct (Qle_bool 80 (sp / b * 100)) eqn:E2;
    [apply (pct_ge sp b 80 Hb) in E2|apply (pct_lt sp b 80 Hb) in E2];
    [|destruct (Qle_bool 60 (sp / b * 100)) eqn:E3;
      [apply (pct_ge sp b 60 Hb) in E3|apply (pct_lt sp b 60 Hb) in E3]]];
  repeat match goal with |- _ /\ _ => split | |- _ <-> _ => split end; intros H;
  first [ discriminate | reflexivity | lra | (exfalso; destruct H; lra) | (split; lra) ].
Qed.

(** With a budget of [0], the percentage is [Infinity] and the level
    [exceeded] as soon as anything was spent this month; a spend of [0]
    gives [NaN] and the level [low]. *)
Theorem checkBudgetAlert_zero_budget (userId : option string) (startOfMonth : Z) (w : World) :
  let a := checkBudgetAlert 0 userId startOfMonth w in
  (0 < ba_currentSpend a -> ba_percentUsed a = JPosInf /\ ba_alertLevel a = Exceeded) /\
  (ba_currentSpend a == 0 -> ba_percentUsed a = JNaN /\ ba_alertLevel a = Low) /\
  (ba_currentSpend a < 0 -> ba_percentUsed a = JNegInf /\ ba_alertLevel a = Low).
Proof.
  unfold checkBudgetAlert. cbv zeta.
  set (sp := us_totalCost (getUsageStats (Some startOfMonth) (Some (clock w)) userId w)).
  unfold js_div. cbn [Qeq_bool ba_currentSpend ba_percentUsed ba_alertLevel].
  change (Qeq_bool 0 0) with true. cbv iota.
  destruct (Qeq_bool sp 0) eqn:E; [apply Qeq_bool_iff in E|].
  - cbn [js_mul100 js_ge]. repeat match goal with |- _ /\ _ => split end; intros H; first [ (split; reflexivity) | (exfalso; lra) ].
  - assert (E' : ~ sp == 0) by (intros H; apply Qeq_bool_iff in H; congruence).
    destruct (Qle_bool sp 0) eqn:F; [apply Qle_bool_iff in F|].
    + cbn [js_mul100 js_ge]. repeat match goal with |- _ /\ _ => split end; intros H; first [ (split; reflexivity) | (exfalso; lra) ].
    + assert (F' : 0 < sp) by (apply Qnot_le_lt; intros H; apply Qle_bool_iff in H; congruence).
      cbn [js_mul100 js_ge]. repeat match goal with |- _ /\ _ => split end; intros H; first [ (split; reflexivity) | (exfalso; lra) ].
Qed.

End BudgetAlerts.

Lemma checkBudgetAlert_levels_witness :
  let w := mkWorld [] [mkAPIUsage "completion" "gpt-4o-mini" None None None (17 # 2) false
                         None None 0] [] 0 in
  0 < 10 /\
  APIUsageTracker.ba_alertLevel (APIUsageTracker.checkBudgetAlert 10 None 0 w)
    = APIUsageTracker.High /\
  APIUsageTracker.ba_alertLevel (APIUsageTracker.checkBudgetAlert 10 None 0 Demo.stats_world)
    = APIUsageTracker.Low.
Proof.
  intros w. assert (Hb : 0 < 10) by reflexivity. split; [exact Hb|]. split.
  - destruct (checkBudgetAlert_levels 10 None 0 w Hb) as [_ [_ [HH _]]].
    apply HH. split; [apply Qle_bool_iff; reflexivity|reflexivity].
  - destruct (checkBudgetAlert_levels 10 None 0 Demo.stats_world Hb) as [_ [_ [_ [_ HL]]]].
    apply HL. reflexivity.
Defined.

Section CostByVideo.
Import AICacheService APIUsageTracker.

Lemma insert_by_cost_head (x : VideoCost) (l : list VideoCost) (y : Q) :
  vc_totalCost x <= y ->
  match l with [] => True | z :: _ => vc_totalCost z <= y end ->
  match insert_by_cost x l with [] => True | z :: _ => vc_totalCost z <= y end.
Proof.
  destruct l as [|z l]; simpl; [tauto|].
  destruct (negb (Qle_bool (vc_totalCost x) (vc_totalCost z))); simpl; tauto.
Qed.

Lemma insert_by_cost_sorted (x : VideoCost) (l : list VideoCost) :
  cost_nonincreasing l -> cost_nonincreasing (insert_by_cost x l).
Proof.
  induction l as [|y l IH]; intros Hs; simpl; [exact I|].
  destruct (Qle_bool (vc_totalCost x) (vc_totalCost y)) eqn:E; simpl.
  - apply Qle_bool_iff in E.
    assert (Hl : cost_nonincreasing l) by (destruct l; [exact I|exact (proj2 Hs)]).
    assert (Hh : match l with [] => True | z :: _ => vc_totalCost z <= vc_totalCost y end)
      by (destruct l; [exact I|exact (proj1 Hs)]).
    pose proof (insert_by_cost_head x l (vc_totalCost y) E Hh) as Hi.
    specialize (IH Hl). destruct (insert_by_cost x l) as [|z l']; [exact I|].
    split; assumption.
  - split; [|exact Hs].
    apply Qlt_le_weak, Qnot_le_lt. intros H. apply Qle_bool_iff in H. congruence.
Qed.

Lemma sort_by_cost_sorted_acc (l acc : list VideoCost) :
  cost_nonincreasing acc ->
  cost_nonincreasing (fold_left (fun acc x => insert_by_cost x acc) l acc).
Proof.
  revert acc. induction l as [|x l IH]; intros acc H; simpl; [exact H|].
  apply IH, insert_by_cost_sorted, H.
Qed.

Lemma insert_by_cost_sum (f : VideoCost -> nat) (x : VideoCost) (l : list VideoCost) :
  list_sum (map f (insert_by_cost x l)) = (f x + list_sum (map f l))%nat.
Proof.
  induction l as [|y l IH]; simpl; [reflexivity|].
  destruct (negb _); simpl; [reflexivity|]. rewrite IH. lia.
Qed.

Lemma insert_by_cost_In (x v : VideoCost) (l : list VideoCost) :
  In v (insert_by_cost x l) <-> x = v \/ In v l.
Proof.
  induction l as [|y l IH]; simpl; [tauto|].
  destruct (negb _); simpl; [tauto|]. rewrite IH. tauto.
Qed.

Lemma sort_by_cost_sum_acc (f : VideoCost -> nat) (l acc : list VideoCost) :
  list_sum (map f (fold_left (fun acc x => insert_by_cost x acc) l acc)) =
  (list_sum (map f l) + list_sum (map f acc))%nat.
Proof.
  revert acc. induction l as [|x l IH]; intros acc; simpl; [reflexivity|].
  rewrite IH, insert_by_cost_sum. lia.
Qed.

Lemma sort_by_cost_In_acc (v : VideoCost) (l acc : list VideoCost) :
  In v (fold_left (fun acc x => insert_by_cost x acc) l acc) <-> In v l \/ In v acc.
Proof.
  revert acc. induction l as [|x l IH]; intros acc; simpl; [tauto|].
  rewrite IH, insert_by_cost_In. intuition congruence.
Qed.

Lemma filter_map_comm {B C} (p : C -> bool) (f : B -> C) (l : list B) :
  filter p (map f l) = map f (filter (fun x => p (f x)) l).
Proof.
  induction l as [|x l IH]; simpl; [reflexivity|]. destruct (p (f x)); simpl; rewrite IH; reflexivity.
Qed.

(** [getCostByVideo] returns its videos from the most to the least costly,
    and their [requests] add up to the number of usage rows of the user
    whose [videoId] is set and non-empty. *)
Theorem getCostByVideo_sorted_total (userId : option string) (videos : list (string * string))
    (w : World) :
  cost_nonincreasing (getCostByVideo userId videos w) /\
  list_sum (map vc_requests (getCostByVideo userId videos w)) =
  length (filter (fun r => negb (String.eqb (video_key r) "") && user_matches userId r)
                 (aPIUsage w)).
Proof.
  unfold getCostByVideo. cbv zeta. unfold sort_by_cost. split.
  - apply sort_by_cost_sorted_acc. exact I.
  - rewrite sort_by_cost_sum_acc. simpl list_sum at 2. rewrite Nat.add_0_r.
    set (rows := filter (fun r => has_video r && user_matches userId r) (aPIUsage w)).
    unfold group_by. rewrite filter_map_comm, !map_map.
    set (ks := filter _ (distinct [] (map video_key rows))).
    change (list_sum (map (fun k => length (filter (fun x => String.eqb (video_key x) k) rows)) ks) =
            length (filter (fun r => negb (String.eqb (video_key r) "") && user_matches userId r)
                      (aPIUsage w))).
    rewrite (groups_length APIUsage string video_key (fun x k => String.eqb (video_key x) k)
               (fun k s => existsb (String.eqb k) s) (str_grp_spec video_key) str_mem_spec)
      by (apply NoDup_filter, distinct_NoDup).
    transitivity (length (filter (fun r => negb (String.eqb (video_key r) "")) rows)).
    + f_equal. apply filter_ext_in. intros r Hr.
      apply Bool.eq_iff_eq_true. rewrite str_mem_spec. unfold ks. rewrite filter_In, distinct_In.
      split; [tauto|]. intros H. split; [apply in_map; exact Hr|exact H].
    + unfold rows. rewrite filter_filter_and. f_equal. apply filter_ext. intros r.
      unfold has_video, video_key. destruct (u_videoId r); simpl; [|reflexivity].
      destruct (user_matches userId r), (negb (String.eqb s "")); reflexivity.
Qed.

End CostByVideo.

Section DailyUsage.
Import AICacheService APIUsageTracker.

Definition mem_tc (k : Z * bool) (s : list (Z * bool)) : bool :=
  existsb (fun k' => (fst k' =? fst k)%Z && Bool.eqb (snd k') (snd k)) s.

Lemma tc_eq_spec (k k' : Z * bool) :
  (fst k' =? fst k)%Z && Bool.eqb (snd k') (snd k) = true <-> k' = k.
Proof.
  destruct k as [t c], k' as [t' c']. simpl.
  rewrite Bool.andb_true_iff, Z.eqb_eq, Bool.eqb_true_iff. split.
  - intros [-> ->]. reflexivity.
  - intros E. injection E as -> ->. tauto.
Qed.

Lemma mem_tc_spec (k : Z * bool) (s : list (Z * bool)) : mem_tc k s = true <-> In k s.
Proof.
  unfold mem_tc. rewrite existsb_exists. split.
  - intros [k' [Hin E]]. apply tc_eq_spec in E. subst k'. exact Hin.
  - intros Hin. exists k. split; [exact Hin|apply tc_eq_spec; reflexivity].
Qed.

Lemma grp_tc_spec (r : APIUsage) (k : Z * bool) :
  (u_timestamp r =? fst k)%Z && Bool.eqb (u_cached r) (snd k) = true <-> tc_key r = k.
Proof. exact (tc_eq_spec k (tc_key r)). Qed.

Lemma distinct_tc_is_by (seen l : list (Z * bool)) : distinct_tc seen l = distinct_by mem_tc seen l.
Proof.
  revert seen. induction l as [|k l IH]; intros seen; simpl; [reflexivity|].
  unfold mem_tc. destruct (existsb _ seen); rewrite ?IH; reflexivity.
Qed.

(** The day-map bookkeeping of one field [f] whose default is [0]. *)
Lemma day_set_sum (f : DayUsage -> nat) (v : DayUsage) (m : list DayUsage) :
  f (mkDayUsage (du_date v) 0 0 0) = 0%nat ->
  (list_sum (map f (day_set v m)) + f (day_get (du_date v) m) = list_sum (map f m) + f v)%nat.
Proof.
  intros H0. induction m as [|x m IH]; simpl.
  - rewrite H0. lia.
  - destruct (du_date x =? du_date v)%Z; simpl; lia.
Qed.

Lemma day_set_sumQ (v : DayUsage) (m : list DayUsage) :
  sumQ du_cost (day_set v m) + du_cost (day_get (du_date v) m) == sumQ du_cost m + du_cost v.
Proof.
  induction m as [|x m IH]; simpl.
  - rewrite sumQ_single. unfold sumQ. simpl. ring.
  - destruct (du_date x =? du_date v)%Z; simpl; rewrite !sumQ_cons; [ring|].
    rewrite <- Qplus_assoc, IH. ring.
Qed.

Lemma day_set_dates (v : DayUsage) (m : list DayUsage) :
  map du_date (day_set v m) =
  if existsb (fun x => (du_date x =? du_date v)%Z) m then map du_date m
  else (map du_date m ++ [du_date v])%list.
Proof.
  induction m as [|x m IH]; simpl; [reflexivity|].
  destruct (du_date x =? du_date v)%Z eqn:E; simpl.
  - apply Z.eqb_eq in E. rewrite E. reflexivity.
  - rewrite IH. destruct (existsb _ m); reflexivity.
Qed.

Lemma day_set_NoDup (v : DayUsage) (m : list DayUsage) :
  NoDup (map du_date m) -> NoDup (map du_date (day_set v m)).
Proof.
  intros Hnd. rewrite day_set_dates. destruct (existsb _ m) eqn:E; [exact Hnd|].
  apply NoDup_app; [exact Hnd|repeat constructor; simpl; tauto|].
  intros d Hd [<-|[]]. apply in_map_iff in Hd. destruct Hd as [x [Hx Hin]].
  assert (Hf : existsb (fun x => (du_date x =? du_date v)%Z) m = true).
  { apply existsb_exists. exists x. split; [exact Hin|apply Z.eqb_eq, Hx]. }
  congruence.
Qed.

Lemma day_set_Forall (P : DayUsage -> Prop) (v : DayUsage) (m : list DayUsage) :
  Forall P m -> P v -> Forall P (day_set v m).
Proof.
  intros Hm Hv. induction Hm as [|x m Hx Hm IH]; simpl; [constructor; [exact Hv|constructor]|].
  destruct (du_date x =? du_date v)%Z; constructor; assumption.
Qed.

Lemma day_get_Forall (P : DayUsage -> Prop) (d : Z) (m : list DayUsage) :
  Forall P m -> P (mkDayUsage d 0 0 0) -> P (day_get d m).
Proof.
  intros Hm H0. induction Hm as [|x m Hx Hm IH]; simpl; [exact H0|].
  destruct (du_date x =? d)%Z; assumption.
Qed.

Definition cached_le (d : DayUsage) : Prop := (du_cached d <= du_requests d)%nat.

Lemma day_step_facts (m : list DayUsage) (g : Z * bool * nat * Q) :
  let '(_, cached, count, cost) := g in
  list_sum (map du_requests (day_step m g)) = (list_sum (map du_requests m) + count)%nat /\
  list_sum (map du_cached (day_step m g)) =
    (list_sum (map du_cached m) + if cached then count else 0)%nat /\
  sumQ du_cost (day_step m g) == sumQ du_cost m + cost /\
  (NoDup (map du_date m) -> NoDup (map du_date (day_step m g))) /\
  (Forall cached_le m -> Forall cached_le (day_step m g)).
Proof.
  destruct g as [[[ts cached] count] cost]. unfold day_step.
  set (e := day_get (day_of ts) m).
  set (v := mkDayUsage (day_of ts) (du_cost e + cost) (du_requests e + count)
              (if cached then du_cached e + count else du_cached e)).
  pose proof (day_set_sum du_requests v m eq_refl) as Hr.
  pose proof (day_set_sum du_cached v m eq_refl) as Hc.
  pose proof (day_set_sumQ v m) as Hq.
  change (du_date v) with (day_of ts) in Hr, Hc, Hq. fold e in Hr, Hc, Hq.
  split; [|split; [|split; [|split]]].
  - simpl in Hr. lia.
  - simpl in Hc. destruct cached; lia.
  - simpl in Hq. apply (Qplus_inj_r _ _ (du_cost e)). rewrite Hq. ring.
  - apply day_set_NoDup.
  - intros Hf. apply day_set_Forall; [exact Hf|].
    assert (He : cached_le e) by (apply day_get_Forall; [exact Hf|unfold cached_le; simpl; lia]).
    unfold cached_le in *. simpl. destruct cached; lia.
Qed.

Lemma day_fold_facts (gs : list (Z * bool * nat * Q)) (m : list DayUsage) :
  let m' := fold_left day_step gs m in
  list_sum (map du_requests m') =
    (list_sum (map du_requests m) + list_sum (map (fun g : Z * bool * nat * Q => let '(_, _, n, _) := g in n) gs))%nat /\
  list_sum (map du_cached m') =
    (list_sum (map du_cached m) + list_sum (map (fun g : Z * bool * nat * Q => let '(_, c, n, _) := g in if c then n else 0%nat) gs))%nat /\
  sumQ du_cost m' == sumQ du_cost m + sumQ (fun g : Z * bool * nat * Q => let '(_, _, _, q) := g in q) gs /\
  (NoDup (map du_date m) -> NoDup (map du_date m')) /\
  (Forall cached_le m -> Forall cached_le m').
Proof.
  revert m. induction gs as [|g gs IH]; intros m; simpl.
  - rewrite !Nat.add_0_r. unfold sumQ at 3. simpl. repeat split; auto. ring.
  - destruct (IH (day_step m g)) as [H1 [H2 [H3 [H4 H5]]]].
    pose proof (day_step_facts m g) as Hs. destruct g as [[[ts c] n] q].
    destruct Hs as [S1 [S2 [S3 [S4 S5]]]].
    split; [|split; [|split; [|split]]].
    + rewrite H1, S1. lia.
    + rewrite H2, S2. lia.
    + rewrite H3, S3, sumQ_cons. ring.
    + intros Hn. apply H4, S4, Hn.
    + intros Hf. apply H5, S5, Hf.
Qed.

Lemma insert_by_date_In (x v : DayUsage) (l : list DayUsage) :
  In v (insert_by_date x l) <-> x = v \/ In v l.
Proof.
  induction l as [|y l IH]; simpl; [tauto|].
  destruct (du_date x <? du_date y)%Z; simpl; [tauto|]. rewrite IH. tauto.
Qed.

Lemma insert_by_date_sum (f : DayUsage -> nat) (x : DayUsage) (l : list DayUsage) :
  list_sum (map f (insert_by_date x l)) = (f x + list_sum (map f l))%nat.
Proof.
  induction l as [|y l IH]; simpl; [reflexivity|].
  destruct (du_date x <? du_date y)%Z; simpl; [reflexivity|]. rewrite IH. lia.
Qed.

Lemma insert_by_date_sumQ (x : DayUsage) (l : list DayUsage) :
  sumQ du_cost (insert_by_date x l) == du_cost x + sumQ du_cost l.
Proof.
  induction l as [|y l IH]; simpl; [apply sumQ_cons|].
  destruct (du_date x <? du_date y)%Z; simpl; rewrite !sumQ_cons; [reflexivity|].
  rewrite IH. ring.
Qed.

Lemma insert_by_date_head (x : DayUsage) (l : list DayUsage) (y : Z) :
  (y < du_date x)%Z ->
  match l with [] => True | z :: _ => (y < du_date z)%Z end ->
  match insert_by_date x l with [] => True | z :: _ => (y < du_date z)%Z end.
Proof.
  destruct l as [|z l]; simpl; [tauto|].
  destruct (du_date x <? du_date z)%Z; simpl; tauto.
Qed.

Lemma insert_by_date_sorted (x : DayUsage) (l : list DayUsage) :
  dates_increasing l -> ~ In (du_date x) (map du_date l) -> dates_increasing (insert_by_date x l).
Proof.
  induction l as [|y l IH]; intros Hs Hn; simpl; [exact I|].
  destruct (du_date x <? du_date y)%Z eqn:E; simpl.
  - apply Z.ltb_lt in E. split; assumption.
  - apply Z.ltb_ge in E. simpl in Hn.
    assert (Hxy : (du_date y < du_date x)%Z) by (destruct (Z.eq_dec (du_date y) (du_date x)); [tauto|lia]).
    assert (Hl : dates_increasing l) by (destruct l; [exact I|exact (proj2 Hs)]).
    assert (Hh : match l with [] => True | z :: _ => (du_date y < du_date z)%Z end)
      by (destruct l; [exact I|exact (proj1 Hs)]).
    pose proof (insert_by_date_head x l (du_date y) Hxy Hh) as Hi.
    specialize (IH Hl ltac:(tauto)). destruct (insert_by_date x l); [exact I|].
    split; assumption.
Qed.

Lemma sort_dates_acc (l acc : list DayUsage) :
  dates_increasing acc -> NoDup (map du_date l) ->
  (forall v, In v l -> ~ In (du_date v) (map du_date acc)) ->
  dates_increasing (fold_left (fun acc x => insert_by_date x acc) l acc).
Proof.
  revert acc. induction l as [|x l IH]; intros acc Hs Hnd Hdj; simpl; [exact Hs|].
  simpl in Hnd. apply NoDup_cons_iff in Hnd. destruct Hnd as [Hx Hnd].
  apply IH; [apply insert_by_date_sorted; [exact Hs|apply Hdj; left; reflexivity]|exact Hnd|].
  intros v Hv Hin. apply in_map_iff in Hin. destruct Hin as [u [Hu Hin]].
  apply insert_by_date_In in Hin. destruct Hin as [<-|Hin].
  - apply Hx. rewrite Hu. apply in_map, Hv.
  - apply (Hdj v (or_intror Hv)). rewrite <- Hu. apply in_map, Hin.
Qed.

Lemma sort_dates_facts (l acc : list DayUsage) :
  let s := fold_left (fun acc x => insert_by_date x acc) l acc in
  list_sum (map du_requests s) = (list_sum (map du_requests l) + list_sum (map du_requests acc))%nat /\
  list_sum (map du_cached s) = (list_sum (map du_cached l) + list_sum (map du_cached acc))%nat /\
  sumQ du_cost s == sumQ du_cost l + sumQ du_cost acc /\
  (forall v, In v s <-> In v l \/ In v acc).
Proof.
  revert acc. induction l as [|x l IH]; intros acc; simpl.
  - unfold sumQ at 2. simpl. repeat split; try tauto. ring.
  - destruct (IH (insert_by_date x acc)) as [H1 [H2 [H3 H4]]].
    split; [|split; [|split]].
    + rewrite H1, insert_by_date_sum. lia.
    + rewrite H2, insert_by_date_sum. lia.
    + rewrite H3, insert_by_date_sumQ, sumQ_cons. ring.
    + intros v. rewrite H4, insert_by_date_In. tauto.
Qed.

Lemma group_tc_counts (rows : list APIUsage) :
  list_sum (map (fun g : Z * bool * nat * Q => let '(_, _, n, _) := g in n) (group_tc rows)) = length rows /\
  list_sum (map (fun g : Z * bool * nat * Q => let '(_, c, n, _) := g in if c then n else 0%nat) (group_tc rows)) =
    length (filter u_cached rows) /\
  sumQ (fun g : Z * bool * nat * Q => let '(_, _, _, q) := g in q) (group_tc rows) == sumQ u_estimatedCost rows.
Proof.
  unfold group_tc. rewrite !map_map, sumQ_map, distinct_tc_is_by. cbn beta iota.
  set (ks := distinct_by mem_tc [] (map tc_key rows)).
  assert (Hnd : NoDup ks) by apply (distinct_by_NoDup _ _ mem_tc_spec).
  assert (Hall : forall l, incl l rows -> filter (fun x => mem_tc (tc_key x) ks) l = l).
  { intros l Hl. apply filter_all. intros x Hx. apply mem_tc_spec.
    apply (distinct_by_complete _ _ mem_tc_spec); [apply in_map, Hl, Hx|simpl; tauto]. }
  pose proof (groups_length APIUsage (Z * bool) tc_key
                (fun r k => (u_timestamp r =? fst k)%Z && Bool.eqb (u_cached r) (snd k))
                mem_tc grp_tc_spec mem_tc_spec) as GL.
  split; [|split].
  - rewrite GL by exact Hnd. rewrite Hall by (intros x; tauto). reflexivity.
  - rewrite <- (Hall (filter u_cached rows)) by (intros x Hx; apply filter_In in Hx; tauto).
    rewrite <- GL by exact Hnd. f_equal. apply map_ext. intros [t c]. simpl.
    rewrite filter_filter_and. destruct c.
    + f_equal. apply filter_ext. intros r.
      destruct (u_cached r); simpl; rewrite ?Bool.andb_false_r, ?Bool.andb_true_r; reflexivity.
    + assert (Hz : forall l, filter (fun x => u_cached x &&
                     ((u_timestamp x =? t)%Z && Bool.eqb (u_cached x) false)) l = []).
      { induction l as [|r l IHl]; simpl; [reflexivity|].
        destruct (u_cached r); simpl; rewrite ?Bool.andb_false_r; exact IHl. }
      rewrite Hz. reflexivity.
  - rewrite (groups_sumQ APIUsage (Z * bool) tc_key
               (fun r k => (u_timestamp r =? fst k)%Z && Bool.eqb (u_cached r) (snd k))
               mem_tc grp_tc_spec mem_tc_spec) by exact Hnd.
    rewrite Hall by (intros x; tauto). reflexivity.
Qed.

(** [getDailyUsage] lists each day once, in increasing date order, and
    accounts for every usage row of the user in the window: the requests,
    the cache hits and the costs of the days add up to those of the rows,
    and no day has more cache hits than requests. *)
Theorem getDailyUsage_days (startDate endDate : Z) (userId : option string) (w : World) :
  let days := getDailyUsage startDate endDate userId w in
  let rows := filter (fun r => (startDate <=? u_timestamp r)%Z && (u_timestamp r <=? endDate)%Z
                               && user_matches userId r) (aPIUsage w) in
  dates_increasing days /\
  list_sum (map du_requests days) = length rows /\
  list_sum (map du_cached days) = length (filter u_cached rows) /\
  sumQ du_cost days == sumQ u_estimatedCost rows /\
  (forall d, In d days -> (du_cached d <= du_requests d)%nat).
Proof.
  unfold getDailyUsage. cbv zeta.
  set (rows := filter _ (aPIUsage w)).
  destruct (group_tc_counts rows) as [G1 [G2 G3]].
  destruct (day_fold_facts (group_tc rows) []) as [F1 [F2 [F3 [F4 F5]]]].
  set (m := fold_left day_step (group_tc rows) []) in *.
  destruct (sort_dates_facts m []) as [S1 [S2 [S3 S4]]].
  simpl list_sum in F1, F2, S1, S2. change (sumQ du_cost []) with 0 in F3, S3.
  split; [|split; [|split; [|split]]].
  - apply sort_dates_acc; [exact I|apply F4; constructor|simpl; tauto].
  - rewrite S1, F1, G1. lia.
  - rewrite S2, F2, G2. lia.
  - rewrite S3, F3, G3. ring.
  - intros d Hd. apply S4 in Hd. destruct Hd as [Hd|[]].
    assert (Hf : Forall cached_le m) by (apply F5; constructor).
    rewrite Forall_forall in Hf. exact (Hf d Hd).
Qed.

End DailyUsage.

Section TranscriptionLedger.
Context {RT : Runtime}.
Import AICacheService APIUsageTracker AIServicesCached.

Lemma whisper_cost (d : option Q) :
  calculateCost "transcription" transcription_model None None d ==
  match d with Some m => m * (6 # 1000) | None => 0 end.
Proof.
  destruct d as [m|]; [|reflexivity].
  unfold calculateCost. cbn.
  destruct (Qeq_bool m 0) eqn:E; cbn; [|reflexivity].
  apply Qeq_bool_iff in E. rewrite E. reflexivity.
Qed.

(** Every successful [transcribeAudioCached] call, hit or miss, appends
    exactly one usage record: a [transcription] of [whisper-1] for the
    caller's video and user, whose [inputMinutes] is the [duration] of the
    returned transcription and whose cost is $0.006 per minute of it ([0]
    without a numeric duration). *)
Theorem transcription_records_minutes (audioPath : string) (language videoId userId : option string)
    (w : World) (v : json) (w' : World) :
  transcribeAudioCached audioPath language videoId userId w = (Ok v, w') ->
  exists r f, aPIUsage w' = (aPIUsage w ++ [r])%list /\
    js_field v "duration" = Ok f /\
    u_type r = "transcription" /\ u_model r = transcription_model /\
    u_inputMinutes r = as_number f /\
    u_estimatedCost r == match as_number f with Some m => m * (6 # 1000) | None => 0 end /\
    u_videoId r = videoId /\ u_userId r = userId.
Proof.
  intros Hrun. apply try_catch_rethrow_ok in Hrun.
  unfold transcribeAudio_body in Hrun.
  unfold bind at 1, read_file, lift at 1 in Hrun.
  destruct (readFile audioPath) as [bytes|] eqn:Hr; [|discriminate].
  cbn -[get set track transcription_cacheKey transcription_model] in Hrun.
  unfold bind at 1 in Hrun.
  destruct (get_shape "transcription" (transcription_cacheKey bytes language) transcription_model w)
    as [v0 [cache0 [pre [Hg _]]]].
  rewrite Hg in Hrun.
  destruct (truthy v0) eqn:Ht.
  - cbn -[set get generateHash calculateCost transcription_model] in Hrun.
    destruct (js_field v0 "duration") as [d|e] eqn:Hd; [|discriminate].
    cbn -[set get generateHash calculateCost transcription_model] in Hrun.
    injection Hrun as <- <-.
    eexists; exists d. cbn. split; [reflexivity|]. split; [exact Hd|].
    repeat split; try reflexivity. apply whisper_cost.
  - cbn -[set get generateHash calculateCost transcription_model] in Hrun.
    destruct (whisper bytes (str_or language transcription_language)) as [res|e]; [|discriminate].
    cbn -[set get generateHash calculateCost transcription_model] in Hrun.
    destruct (js_field res "duration") as [d|e] eqn:Hd; [|discriminate].
    cbn -[set get generateHash calculateCost transcription_model] in Hrun.
    unfold bind at 1 in Hrun.
    match type of Hrun with
    | context [set ?a ?b ?c ?d ?e ?f ?g ?ww] =>
        destruct (set_effect a b c d e f g ww) as [cache' E]; rewrite E in Hrun
    end.
    cbn in Hrun. injection Hrun as <- <-.
    eexists; exists d. cbn. split; [reflexivity|]. split; [exact Hd|].
    repeat split; try reflexivity. apply whisper_cost.
Qed.

End TranscriptionLedger.

Lemma transcription_records_minutes_witness :
  @AIServicesCached.transcribeAudioCached Demo.demo_rt "talk.wav" None None None Demo.empty_world =
    (Ok (JObj [("duration", JNum 60)]),
     snd (@AIServicesCached.transcribeAudioCached Demo.demo_rt "talk.wav" None None None
            Demo.empty_world)) /\
  exists r, aPIUsage (snd (@AIServicesCached.transcribeAudioCached Demo.demo_rt "talk.wav" None None None
                            Demo.empty_world)) = [r] /\
            u_estimatedCost r == 60 * (6 # 1000).
Proof.
  assert (H : @AIServicesCached.transcribeAudioCached Demo.demo_rt "talk.wav" None None None Demo.empty_world =
    (Ok (JObj [("duration", JNum 60)]),
     snd (@AIServicesCached.transcribeAudioCached Demo.demo_rt "talk.wav" None None None
            Demo.empty_world))) by reflexivity.
  split; [exact H|].
  destruct (@transcription_records_minutes Demo.demo_rt "talk.wav" None None None _ _ _ H)
    as [r [f [Hu [Hf [_ [_ [_ [Hc _]]]]]]]].
  exists r. split; [exact Hu|]. cbn in Hf. injection Hf as <-. exact Hc.
Defined.

Section EmptySummary.
Context {RT : Runtime}.
Import AICacheService APIUsageTracker AIServicesCached.

Lemma findUnique_none_existsb (h : string) (l : list AICache) :
  findUnique h l = None -> existsb (has_hash h) l = false.
Proof.
  induction l as [|x l IH]; simpl; [reflexivity|].
  unfold has_hash at 1. destruct (String.eqb (c_inputHash x) h); [discriminate|exact IH].
Qed.

Lemma summary_falsy_run (t : string) (videoId userId : option string) (resp : ChatResponse)
    (w : World) (v0 : json) (wg : World) :
  get "summary" (md5 t) completion_model w = (Ok v0, wg) -> truthy v0 = false ->
  chat "summary" (summary_prompt t) = Ok resp ->
  let s := str_or (chat_content resp) "" in
  generateSummaryCached t videoId userId w =
    (Ok (JStr s),
     snd (set "summary" (md5 t) completion_model (JStr s) (Some 60%Z) (Some (lenZ t)) (Some (lenZ s))
       (snd (track "completion" completion_model (Some (num_or (prompt_tokens resp) 0))
               (Some (num_or (completion_tokens resp) 0)) None false videoId userId
               (mkWorld (aICache wg) (aPIUsage wg) (trace wg ++ [EvProvider "summary"]) (clock wg)))))).
Proof.
  intros Hg Hv Hc s.
  unfold generateSummaryCached, try_catch, generateSummary_body. cbv zeta.
  unfold bind at 1. rewrite Hg. rewrite Hv.
  unfold bind at 1, emit. unfold bind at 1, lift. rewrite Hc. fold s.
  unfold bind at 1.
  match goal with
  | |- context [track ?a ?b ?c ?d ?e ?f ?g ?hh ?ww] =>
      destruct (track_effect a b c d e f g hh ww) as [r E]; rewrite E
  end.
  cbn [snd]. unfold bind at 1.
  match goal with
  | |- context [set ?a ?b ?c ?d ?e ?f ?g ?ww] =>
      destruct (set_effect a b c d e f g ww) as [cache' E']; rewrite E'
  end.
  reflexivity.
Qed.

(** An empty summary is stored but never served: when the provider answers
    a summary request for a transcript not yet cached without content, the
    call returns [""] and caches it; the next call for the same transcript
    finds the entry and counts a hit on it, yet calls the provider again,
    records a paid request and stores the answer anew. *)
Theorem empty_summary_not_served (transcript : string) (videoId userId : option string)
    (resp : ChatResponse) (w : World) :
  findUnique (generateHash (md5 transcript) completion_model) (aICache w) = None ->
  chat "summary" (summary_prompt transcript) = Ok resp ->
  str_or (chat_content resp) "" = "" ->
  let h := generateHash (md5 transcript) completion_model in
  let w1 := snd (generateSummaryCached transcript videoId userId w) in
  fst (generateSummaryCached transcript videoId userId w) = Ok (JStr "") /\
  fst (generateSummaryCached transcript videoId userId w1) = Ok (JStr "") /\
  trace (snd (generateSummaryCached transcript videoId userId w1)) =
    (trace w1 ++ [EvLookup h; EvHit h; EvProvider "summary"; EvRecord false; EvStore h])%list.
Proof.
  intros Hnone Hchat Hempty h w1.
  destruct (get_cases "summary" (md5 transcript) completion_model w)
    as [[_ Hg]|[[c [e [Hf _]]]|[c [Hf _]]]]; [|congruence|congruence].
  pose proof (summary_falsy_run transcript videoId userId resp w _ _ Hg eq_refl Hchat) as R1.
  cbv zeta in R1. rewrite Hempty in R1.
  unfold w1. rewrite R1. cbn [fst snd]. split; [reflexivity|].
  match goal with
  | |- context [track ?a ?b ?c ?d ?e ?f ?g ?hh ?ww] =>
      destruct (track_effect a b c d e f g hh ww) as [r E]; rewrite E
  end.
  cbn [snd].
  set (W := mkWorld _ _ _ _).
  pose proof (set_run "summary" (md5 transcript) completion_model (JStr "") (Some 60%Z)
                (Some (lenZ transcript)) (Some (lenZ "")) W) as Hs.
  cbv zeta in Hs. fold h in Hs.
  assert (Hex : existsb (has_hash h) (aICache W) = false).
  { unfold W. cbn. apply findUnique_none_existsb. exact Hnone. }
  rewrite Hex in Hs. rewrite Hs. cbn [snd].
  set (entry := mkAICache "summary" h (JStr "") completion_model (Some (lenZ transcript))
                  (Some (lenZ "")) (expiry (clock W) (Some 60%Z)) 0 (clock W)).
  set (W1 := mkWorld (aICache W ++ [entry]) (aPIUsage W) (trace W ++ [EvStore h]) (clock W)).
  assert (Hf1 : findUnique h (aICache W1) = Some entry).
  { apply findUnique_app_last; [exact Hnone|apply String.eqb_refl]. }
  destruct (get_cases "summary" (md5 transcript) completion_model W1)
    as [[Hf2 _]|[[c [e [Hf2 [He [Hlt _]]]]]|[c [Hf2 Hg2]]]]; fold h in Hf2.
  - congruence.
  - rewrite Hf1 in Hf2. injection Hf2 as <-. cbn in He. injection He as <-.
    unfold W in Hlt. cbn in Hlt. lia.
  - rewrite Hf1 in Hf2. injection Hf2 as <-.
    pose proof (summary_falsy_run transcript videoId userId resp W1 _ _ Hg2 eq_refl Hchat) as R2.
    cbv zeta in R2. rewrite Hempty in R2. rewrite R2. cbn [fst snd]. split; [reflexivity|].
    match goal with
    | |- context [track ?a ?b ?c ?d ?e ?f ?g ?hh ?ww] =>
        destruct (track_effect a b c d e f g hh ww) as [r2 E2]; rewrite E2
    end.
    cbn [snd].
    match goal with
    | |- context [set ?a ?b ?c ?d ?e ?f ?g ?ww] =>
        destruct (set_effect a b c d e f g ww) as [cache' E3]; rewrite E3
    end.
    cbn. fold h. rewrite <- !app_assoc. reflexivity.
Qed.

End EmptySummary.

Lemma empty_summary_not_served_witness :
  AICacheService.findUnique
    (@AICacheService.generateHash Demo.silent_rt (@md5 Demo.silent_rt "T")
       AIServicesCached.completion_model) (aICache Demo.empty_world) = None /\
  fst (@AIServicesCached.generateSummaryCached Demo.silent_rt "T" None None
         (snd (@AIServicesCached.generateSummaryCached Demo.silent_rt "T" None None
                 Demo.empty_world))) = Ok (JStr "").
Proof.
  split; [reflexivity|].
  apply (proj1 (proj2 (@empty_summary_not_served Demo.silent_rt "T" None None
                         (mkChatResponse None None None) Demo.empty_world eq_refl eq_refl eq_refl))).
Defined.

Section SetInPlace.
Context {RT : Runtime}.
Import AICacheService.



End SetInPlace.


Section Speakers.
Import AIServicesCached.

Lemma detect_from_nth (p : option (string * Q * Q)) (k : nat) (segs : list (string * Q * Q)) (i : nat) :
  nth_error (detect_from p k segs) i =
  match nth_error segs i with
  | Some seg =>
      Some (seg, if isNewSpeaker (match i with O => p | S j => nth_error segs j end) seg
                 then Some (speaker_label (k + i)) else None)
  | None => None
  end.
Proof.
  revert p k i. induction segs as [|s segs IH]; intros p k i; simpl.
  - destruct i; reflexivity.
  - destruct i as [|i]; simpl.
    + rewrite Nat.add_0_r. reflexivity.
    + rewrite IH. destruct (nth_error segs i) as [seg|]; [|reflexivity].
      replace (S k + i)%nat with (k + S i)%nat by lia.
      destruct i; reflexivity.
Qed.

(** [detectSpeakers] keeps the segments and their order; the first segment
    always opens [speaker_1]; a segment starting more than two seconds
    after the end of the previous one always opens a speaker; and every
    [speakerId] is [speaker_] followed by one plus the segment's position
    divided by ten, whoever speaks. *)
Theorem detectSpeakers_ids (segs : list (string * Q * Q)) :
  map fst (detectSpeakers segs) = segs /\
  (forall seg rest, segs = seg :: rest ->
     nth_error (detectSpeakers segs) 0 = Some (seg, Some "speaker_1")) /\
  (forall j prev seg, nth_error segs j = Some prev -> nth_error segs (S j) = Some seg ->
     2 < snd (fst seg) - snd prev ->
     nth_error (detectSpeakers segs) (S j) = Some (seg, Some (speaker_label (S j)))) /\
  (forall i seg id, nth_error (detectSpeakers segs) i = Some (seg, Some id) ->
     id = "speaker_" ++ string_of_nat (i / 10 + 1)).
Proof.
  unfold detectSpeakers. split; [|split; [|split]].
  - generalize (@None (string * Q * Q)) 0%nat.
    induction segs as [|s segs IH]; intros p k; simpl; [reflexivity|]. rewrite IH. reflexivity.
  - intros seg rest ->. destruct seg as [[text st] en]. reflexivity.
  - intros j prev seg Hp Hs Hgap. rewrite detect_from_nth, Hs, Hp.
    destruct seg as [[text st] en]. destruct prev as [[ptext pst] pen]. simpl in Hgap |- *.
    assert (Hq : Qle_bool (st - pen) (2 # 1) = false).
    { destruct (Qle_bool (st - pen) (2 # 1)) eqn:E; [|reflexivity].
      apply Qle_bool_iff in E. exfalso. apply (Qlt_not_le _ _ Hgap). exact E. }
    rewrite Hq. reflexivity.
  - intros i seg id H. rewrite detect_from_nth in H.
    destruct (nth_error segs i); [|discriminate].
    destruct (isNewSpeaker _ _); [|discriminate]. injection H as _ <-. reflexivity.
Qed.

End Speakers.


Section TopicsTruthy.
Context {RT : Runtime}.
Import AICacheService APIUsageTracker AIServicesCached.

Lemma topics_body_truthy (transcript : string) (videoId userId : option string) (w : World)
    (v : json) (w' : World) :
  extractKeyTopics_body transcript videoId userId w = (Ok v, w') -> truthy v = true.
Proof.
  intros Hrun. unfold extractKeyTopics_body in Hrun. cbv zeta in Hrun.
  unfold bind at 1 in Hrun.
  destruct (get_shape "topics" (md5 ("topics:" ++ transcript)) completion_model w)
    as [v0 [cache0 [pre [Hg _]]]].
  rewrite Hg in Hrun.
  destruct (truthy v0) eqn:Ht.
  - unfold bind at 1 in Hrun.
    match type of Hrun with
    | context [track ?a ?b ?c ?d ?e ?f ?g ?hh ?ww] =>
        destruct (track_effect a b c d e f g hh ww) as [r E]; rewrite E in Hrun
    end.
    cbn in Hrun. injection Hrun as <- _. exact Ht.
  - unfold bind at 1, emit in Hrun. unfold bind at 1, lift in Hrun.
    destruct (chat "topics" (topics_prompt transcript)) as [resp|m]; [|discriminate].
    unfold bind at 1, lift in Hrun.
    destruct (json_parse _) as [res|m]; [|discriminate].
    unfold bind at 1, lift in Hrun.
    destruct (js_field res "topics") as [fld|m]; [|discriminate].
    unfold bind at 1 in Hrun.
    match type of Hrun with
    | context [track ?a ?b ?c ?d ?e ?f ?g ?hh ?ww] =>
        destruct (track_effect a b c d e f g hh ww) as [r E]; rewrite E in Hrun
    end.
    unfold bind at 1 in Hrun.
    match type of Hrun with
    | context [set ?a ?b ?c ?d ?e ?f ?g ?ww] =>
        destruct (set_effect a b c d e f g ww) as [cache' E']; rewrite E' in Hrun
    end.
    cbn in Hrun. injection Hrun as <- _.
    destruct fld as [t|]; [|reflexivity]. destruct (truthy t) eqn:Et; [exact Et|reflexivity].
Qed.

(** [extractKeyTopicsCached] always resolves, and to a truthy value: a
    cached value is served only when truthy, a falsy [topics] field of the
    provider's answer becomes [[]], and every error becomes [[]]. *)
Theorem topics_result_truthy (transcript : string) (videoId userId : option string) (w : World) :
  exists v, fst (extractKeyTopicsCached transcript videoId userId w) = Ok v /\ truthy v = true.
Proof.
  unfold extractKeyTopicsCached, try_catch.
  destruct (extractKeyTopics_body transcript videoId userId w) as [[v|m] w'] eqn:E.
  - exists v. split; [reflexivity|]. exact (topics_body_truthy _ _ _ _ _ _ E).
  - exists (JArr []). split; reflexivity.
Qed.

End TopicsTruthy.

Section TotalKind.
Import AICacheService.

(** A cache kind named ["total"] overwrites the running total of
    [estimateCostSavings] ([savings[type] = cost] with a cost of [0]), even
    a [NaN] one: with the kinds in order of first appearance [ks1],
    ["total"], [ks2], none of [ks2] a key of [Object.prototype], the
    reported total counts only the kinds of [ks2]. *)
Theorem estimateCostSavings_total_kind_resets (w : World) (ks1 ks2 : list string) :
  distinct [] (map c_type (aICache w)) = (ks1 ++ "total" :: ks2)%list ->
  existsb is_prototype_key ks2 = false ->
  exists q, sv_total (estimateCostSavings w) = JFin q /\
    q == sumQ (fun k => match costPerHit k with Some p => p | None => 0 end
                          * hits_of_type (aICache w) k) ks2.
Proof.
  intros Hd Hp.
  assert (Hnd : NoDup ("total" :: ks2)).
  { apply (NoDup_app_remove_l ks1). rewrite <- Hd. apply distinct_NoDup. }
  apply NoDup_cons_iff in Hnd. destruct Hnd as [Hn _].
  unfold estimateCostSavings. rewrite Hd, fold_left_app. cbn [fold_left].
  set (s1 := fold_left _ ks1 _).
  set (x := hits_of_type (aICache w) "total").
  destruct (savings_fold_fin (hits_of_type (aICache w)) ks2 (savings_step s1 "total" x)
              (0 * x + 0 * x) (fun k Hk Ek => Hn (eq_ind k (fun k => In k ks2) Hk _ Ek)) Hp)
    as [q [E Hq]].
  - unfold savings_step. cbv zeta. cbn [String.eqb Ascii.eqb Bool.eqb sv_total].
    reflexivity.
  - exists q. split; [exact E|]. rewrite Hq. ring.
Qed.

End TotalKind.

Lemma estimateCostSavings_total_kind_resets_witness :
  let w := mkWorld [mkAICache "constructor" "c" JNull "gpt-4o-mini" None None None 2 0;
                    mkAICache "total" "t" JNull "gpt-4o-mini" None None None 0 0;
                    Demo.entry "k" 1] [] [] 0 in
  AICacheService.distinct [] (map c_type (aICache w)) = (["constructor"] ++ "total" :: ["highlights"])%list /\
  existsb AICacheService.is_prototype_key ["highlights"] = false /\
  exists q, AICacheService.sv_total (AICacheService.estimateCostSavings w) = JFin q /\ q == 2 # 1000.
Proof.
  intros w. assert (H : AICacheService.distinct [] (map c_type (aICache w)) =
                        (["constructor"] ++ "total" :: ["highlights"])%list) by reflexivity.
  assert (Hp : existsb AICacheService.is_prototype_key ["highlights"] = false)
    by reflexivity.
  split; [exact H|]. split; [exact Hp|].
  destruct (estimateCostSavings_total_kind_resets w ["constructor"] ["highlights"] H Hp) as [q [E Hq]].
  exists q. split; [exact E|]. rewrite Hq. reflexivity.
Defined.
